(** * Tuwaiq drones project: the WSL drone server

    A shallow embedding of [wsl_drone_server.py]: the mission planner
    [build_square_mission], the readiness waits, the per-connection coroutine
    [handle_client] and the boot sequence [main], with the properties the
    specification states about them.

    Python floats are IEEE 754 binary64 numbers and are modelled by Rocq's
    primitive floats; [math.cos] is the C library's and stays a parameter. *)

From Stdlib Require Import List String Ascii ZArith Lia Bool Floats.
Import ListNotations.

Set Warnings "-inexact-float".

#[local] Open Scope string_scope.

(** ** The mission planner *)

Module Planner.

#[local] Open Scope float_scope.

(** [MissionItem.CameraAction] and [MissionItem.VehicleAction] are enumerations
    of the mavsdk package; the server only ever names their member [NONE]. *)
Inductive CameraAction := CameraAction_NONE.
Inductive VehicleAction := VehicleAction_NONE.

(** [mavsdk.mission.MissionItem], in the order of its positional arguments. *)
Record MissionItem := mkMissionItem {
  latitude_deg : float;
  longitude_deg : float;
  relative_altitude_m : float;
  speed_m_s : float;
  is_fly_through : bool;
  gimbal_pitch_deg : float;
  gimbal_yaw_deg : float;
  camera_action : CameraAction;
  loiter_time_s : float;
  camera_photo_interval_s : float;
  acceptance_radius_m : float;
  yaw_deg : float;
  camera_photo_distance_m : float;
  vehicle_action : VehicleAction
}.

(** [mavsdk.mission.MissionPlan(items)]. *)
Record MissionPlan := mkMissionPlan { mission_items : list MissionItem }.

(** [math.radians]: CPython multiplies by the double [pi / 180]. *)
Definition degToRad : float := 3.141592653589793 / 180.
Definition radians (x : float) : float := x * degToRad.

(** Python's [max(a, b)] keeps [a] unless [b > a]. *)
Definition max (a b : float) : float := if a <? b then b else a.

(** A float that is neither infinite nor NaN, on its [spec_float] image. *)
Definition SF_finite (x : spec_float) : Prop :=
  match x with
  | S754_zero _ | S754_finite _ _ _ => True
  | _ => False
  end.

(** The defaults of [build_square_mission]'s keyword parameters. *)
Definition default_alt : float := 5.0.
Definition default_side_m : float := 10.0.
Definition default_speed_m_s : float := 5.0.

Section WithLibm.

(** [math.cos]. *)
Variable cos : float -> float.

Definition dlat_of (side_m : float) : float := side_m / 1.11e5.

(** protect against cos(lat)=0 near poles *)
Definition lon_divisor (lat : float) : float :=
  1.11e5 * max 0.2 (abs (cos (radians lat))).

Definition dlon_of (lat side_m : float) : float := side_m / lon_divisor lat.

Definition item (lat lon alt speed_m_s : float) : MissionItem :=
  mkMissionItem lat lon alt speed_m_s true
    nan nan
    CameraAction_NONE
    nan nan
    nan nan nan
    VehicleAction_NONE.

Definition build_square_mission (lat lon alt side_m speed_m_s : float)
  : MissionPlan :=
  let dlat := dlat_of side_m in
  let dlon := dlon_of lat side_m in
  let items :=
    [ item (lat + dlat) lon alt speed_m_s;
      item (lat + dlat) (lon + dlon) alt speed_m_s;
      item lat (lon + dlon) alt speed_m_s;
      item lat lon alt speed_m_s ] in
  mkMissionPlan items.

End WithLibm.

End Planner.

(** ** Telemetry records of the Vehicle Link *)

Module Telemetry.

(** An element of [drone.core.connection_state()]. *)
Record ConnectionState := mkConnectionState { is_connected : bool }.

(** An element of [drone.telemetry.health()]. *)
Record Health := mkHealth {
  is_global_position_ok : bool;
  is_home_position_ok : bool
}.

(** An element of [drone.telemetry.home()]. *)
Record Position := mkPosition {
  latitude_deg : float;
  longitude_deg : float
}.

End Telemetry.

(** ** Coroutines and their effects *)

Module Server.

Import Planner.

(** TCP server (your client connects here) *)
Definition HOST : string := "0.0.0.0".
Definition PORT : Z := 9999.

(** MAVSDK connection to PX4 *)
Definition PX4_SYSTEM_ADDRESS : string := "udp://:14540".

Definition nl : string := String (ascii_of_nat 10) EmptyString.

(** Exceptions below [Exception]: [asyncio.TimeoutError], which [main] tells
    apart, and every other one.  Each carries the text [str(e)] gives.
    Cancellation and [KeyboardInterrupt] are not below [Exception] and are
    left out. *)
Inductive exn :=
| TimeoutError (msg : string)
| Error (msg : string).

Definition str (e : exn) : string :=
  match e with
  | TimeoutError msg => msg
  | Error msg => msg
  end.

Inductive result (A : Type) : Type :=
| Ok (a : A)
| Raise (e : exn).
Arguments Ok {A} a.
Arguments Raise {A} e.

(** What an asynchronous stream does while a coroutine iterates over it under
    [asyncio.wait_for]: it yields [items], and then ends, or yields nothing
    more before the deadline, or raises. *)
Inductive stream_end :=
| StreamEnd
| Deadline
| StreamRaise (e : exn).

Record stream (T : Type) := mkStream {
  items : list T;
  ending : stream_end
}.
Arguments mkStream {T} items ending.
Arguments items {T} s.
Arguments ending {T} s.

(** Awaited calls that return [None] or raise. *)
Inductive call :=
| connect (system_address : string)
| action_arm
| action_takeoff
| action_land
| mission_clear_mission
| mission_upload_mission (plan : MissionPlan)
| mission_start_mission
| write_drain (msg : string)
| wait_closed.

(** A coroutine, as the tree of what it does next.  The constructors up to
    [ServeForever] suspend the coroutine until the event loop resumes it with
    an answer; the others run without suspending. *)
Inductive prog (A : Type) : Type :=
| Ret (a : A)
| Await (c : call) (k : result unit -> prog A)
| Sleep (secs : float) (k : prog A)
| Readline (k : result string -> prog A)
| WaitConnectionState (timeout_s : float)
    (k : stream Telemetry.ConnectionState -> prog A)
| WaitHealth (timeout_s : float) (k : stream Telemetry.Health -> prog A)
| WaitHome (timeout_s : float) (k : stream Telemetry.Position -> prog A)
| FirstConnectionState
    (k : result (option Telemetry.ConnectionState) -> prog A)
| StartServer (host : string) (port : Z) (k : result string -> prog A)
| ServeForever
| Print (msg : string) (k : prog A)
| Close (k : prog A)
| NewState (flying : bool) (k : prog A)
| GetFlying (k : bool -> prog A)
| SetFlying (flying : bool) (k : prog A)
| GetConn (k : option bool -> prog A)
| SetConn (conn : bool) (k : prog A).
Arguments Ret {A} a.
Arguments Await {A} c k.
Arguments Sleep {A} secs k.
Arguments Readline {A} k.
Arguments WaitConnectionState {A} timeout_s k.
Arguments WaitHealth {A} timeout_s k.
Arguments WaitHome {A} timeout_s k.
Arguments FirstConnectionState {A} k.
Arguments StartServer {A} host port k.
Arguments ServeForever {A}.
Arguments Print {A} msg k.
Arguments Close {A} k.
Arguments NewState {A} flying k.
Arguments GetFlying {A} k.
Arguments SetFlying {A} flying k.
Arguments GetConn {A} k.
Arguments SetConn {A} conn k.

Fixpoint bind {A B : Type} (p : prog A) (f : A -> prog B) : prog B :=
  match p with
  | Ret a => f a
  | Await c k => Await c (fun r => bind (k r) f)
  | Sleep secs k => Sleep secs (bind k f)
  | Readline k => Readline (fun r => bind (k r) f)
  | WaitConnectionState t k => WaitConnectionState t (fun s => bind (k s) f)
  | WaitHealth t k => WaitHealth t (fun s => bind (k s) f)
  | WaitHome t k => WaitHome t (fun s => bind (k s) f)
  | FirstConnectionState k => FirstConnectionState (fun r => bind (k r) f)
  | StartServer host port k => StartServer host port (fun r => bind (k r) f)
  | ServeForever => ServeForever
  | Print msg k => Print msg (bind k f)
  | Close k => Close (bind k f)
  | NewState b k => NewState b (bind k f)
  | GetFlying k => GetFlying (fun b => bind (k b) f)
  | SetFlying b k => SetFlying b (bind k f)
  | GetConn k => GetConn (fun c => bind (k c) f)
  | SetConn c k => SetConn c (bind k f)
  end.

(** Code that may raise: [E A] returns an [A] or propagates an exception. *)
Definition E (A : Type) : Type := prog (result A).

Definition ret {A : Type} (a : A) : E A := Ret (Ok a).
Definition raise {A : Type} (e : exn) : E A := Ret (Raise e).

Definition bindE {A B : Type} (m : E A) (f : A -> E B) : E B :=
  bind m (fun r => match r with Ok a => f a | Raise e => Ret (Raise e) end).

(** [try: m  except Exception as e: handler e] *)
Definition try_except {A : Type} (m : E A) (handler : exn -> E A) : E A :=
  bind m (fun r => match r with Ok a => Ret (Ok a) | Raise e => handler e end).

(** [try: m  except asyncio.TimeoutError: handler] *)
Definition try_except_timeout {A : Type} (m : E A) (handler : E A) : E A :=
  bind m (fun r =>
    match r with
    | Ok a => Ret (Ok a)
    | Raise (TimeoutError _) => handler
    | Raise (Error msg) => Ret (Raise (Error msg))
    end).

Declare Scope coroutine_scope.
Delimit Scope coroutine_scope with coroutine.
Notation "x <- m ;; k" := (bindE m (fun x => k))
  (at level 61, m at next level, right associativity) : coroutine_scope.
Notation "m ;; k" := (bindE m (fun _ => k))
  (at level 61, right associativity) : coroutine_scope.
#[local] Open Scope coroutine_scope.

Definition await (c : call) : E unit := Await c (fun r => Ret r).
Definition sleep (secs : float) : E unit := Sleep secs (ret tt).
Definition readline : E string := Readline (fun r => Ret r).
Definition print (msg : string) : E unit := Print msg (ret tt).
Definition close : E unit := Close (ret tt).
Definition get_flying : E bool := GetFlying (fun b => ret b).
Definition set_flying (b : bool) : E unit := SetFlying b (ret tt).
Definition set_conn (c : bool) : E unit := SetConn c (ret tt).

Definition get_conn_opt : E (option bool) := GetConn (fun c => ret c).

(** [str(b)] of a Python [bool], as an f-string renders it. *)
Definition str_bool (b : bool) : string := if b then "True" else "False".

(** [asyncio.wait_for(_wait(), timeout=timeout_s)] over the stream [s], where
    [_wait] returns [found x] at the first element [x] with [pred x] and
    [exhausted] when the stream ends before. *)
Definition wait_for {T A : Type} (pred : T -> bool) (found : T -> A)
  (exhausted : A) (s : stream T) : E A :=
  match find pred (items s) with
  | Some x => ret (found x)
  | None =>
      match ending s with
      | StreamEnd => ret exhausted
      | Deadline => raise (TimeoutError "")
      | StreamRaise e => raise e
      end
  end.

(** The conditions the three [_wait] loops test on an element. *)
Definition health_ok (health : Telemetry.Health) : bool :=
  Telemetry.is_global_position_ok health && Telemetry.is_home_position_ok health.

Definition home_set (home : Telemetry.Position) : bool :=
  (0.0001 <? abs (Telemetry.latitude_deg home))%float
  && (0.0001 <? abs (Telemetry.longitude_deg home))%float.

Definition wait_connected (timeout_s : float) : E bool :=
  print "Waiting for MAVSDK connection_state() ..." ;;
  WaitConnectionState timeout_s
    (wait_for Telemetry.is_connected (fun _ => true) false).

(** Wait for global position and home position. *)
Definition wait_health_ok (timeout_s : float) : E (option Telemetry.Health) :=
  print "Waiting for telemetry health (global/home position)..." ;;
  WaitHealth timeout_s
    (wait_for health_ok Some None).

(** Get home location from telemetry.home(). *)
Definition get_home (timeout_s : float) : E (option Telemetry.Position) :=
  print "Fetching home position..." ;;
  WaitHome timeout_s
    (wait_for home_set Some None).

Definition safe_write (msg : string) : E unit := await (write_drain msg).

(** How one turn of [while True] ends. *)
Inductive ctl := Continue | Break.

Section Handler.

(** [math.cos]. *)
Variable cos : float -> float.

(** [line.decode().strip().lower()] on the bytes read; decoding may raise. *)
Variable decode_strip_lower : string -> result string.

(** [str(e)] of the [UnboundLocalError] for the local [conn], and of the
    [AttributeError] for an attribute of [None]. *)
Variable unbound_conn_msg : string.
Variable none_attribute_msg : string -> string.

(** [conn] in an expression: bound, or [UnboundLocalError]. *)
Definition get_conn : E bool :=
  c <- get_conn_opt ;;
  match c with
  | Some b => ret b
  | None => raise (Error unbound_conn_msg)
  end.

(** [home.latitude_deg] and [home.longitude_deg], where [home] may be [None]. *)
Definition attr_latitude_deg (home : option Telemetry.Position) : E float :=
  match home with
  | Some h => ret (Telemetry.latitude_deg h)
  | None => raise (Error (none_attribute_msg "latitude_deg"))
  end.

Definition attr_longitude_deg (home : option Telemetry.Position) : E float :=
  match home with
  | Some h => ret (Telemetry.longitude_deg h)
  | None => raise (Error (none_attribute_msg "longitude_deg"))
  end.

Definition reply_err (e : exn) : E unit :=
  safe_write ("ERR " ++ str e ++ nl).

(** [if cmd in ("takeoff", "take off"):] *)
Definition takeoff_branch : E unit :=
  try_except
    (await action_arm ;;
     sleep 1 ;;
     await action_takeoff ;;
     set_flying true ;;
     safe_write ("OK takeoff" ++ nl))
    reply_err.

(** Clear any old mission before uploading a new one (helps with retries) *)
Definition clear_old_mission : E unit :=
  try_except
    (await mission_clear_mission ;;
     sleep 0.3)
    (fun _ => ret tt).

Definition upload_and_start (plan : MissionPlan) : E unit :=
  await (mission_upload_mission plan) ;;
  sleep 0.5 ;;
  await mission_start_mission ;;
  safe_write ("OK mission started" ++ nl).

(** [elif cmd == "mission":]; its [continue] ends the turn like falling out
    of the [try] does, since nothing follows the [if] chain in the loop. *)
Definition mission_branch : E unit :=
  try_except
    (flying <- get_flying ;;
     if negb flying then
       safe_write ("ERR not flying" ++ nl)
     else
       home <- get_home 10.0 ;;
       lat <- attr_latitude_deg home ;;
       lon <- attr_longitude_deg home ;;
       let plan :=
         build_square_mission cos lat lon
           default_alt default_side_m default_speed_m_s in
       clear_old_mission ;;
       upload_and_start plan)
    reply_err.

(** [elif cmd == "land":] *)
Definition land_branch : E unit :=
  try_except
    (await action_land ;;
     set_flying false ;;
     safe_write ("OK land" ++ nl))
    reply_err.

(** [async for state_conn in drone.core.connection_state():
       conn = state_conn.is_connected; break] *)
Definition read_connection : E unit :=
  first <- FirstConnectionState (fun r => Ret r) ;;
  match first with
  | Some state_conn => set_conn (Telemetry.is_connected state_conn)
  | None => ret tt
  end.

(** [elif cmd == "status":] *)
Definition status_branch : E unit :=
  try_except
    (read_connection ;;
     conn <- get_conn ;;
     flying <- get_flying ;;
     safe_write ("OK connected=" ++ str_bool conn
                 ++ " flying=" ++ str_bool flying ++ nl))
    reply_err.

(** [elif cmd == "stop":] *)
Definition stop_branch : E ctl :=
  safe_write ("OK stop" ++ nl) ;;
  ret Break.

Definition ignored_branch : E unit := safe_write ("IGNORED" ++ nl).

Definition dispatch (cmd : string) : E ctl :=
  if (cmd =? "takeoff") || (cmd =? "take off") then
    takeoff_branch ;; ret Continue
  else if cmd =? "mission" then
    mission_branch ;; ret Continue
  else if cmd =? "land" then
    land_branch ;; ret Continue
  else if cmd =? "status" then
    status_branch ;; ret Continue
  else if cmd =? "stop" then
    stop_branch
  else
    ignored_branch ;; ret Continue.

(** One turn of the [while True] loop of [handle_client]. *)
Definition loop_turn : E ctl :=
  line <- readline ;;
  if line =? "" then
    ret Break
  else
    cmd <- Ret (decode_strip_lower line) ;;
    print ("CMD: " ++ cmd) ;;
    dispatch cmd.

(** The lines of [handle_client] before its [try]. *)
Definition greeting (addr : string) : E unit :=
  print ("Client connected: " ++ addr) ;;
  safe_write ("OK connected to server" ++ nl).

(** The [finally] block of [handle_client]. *)
Definition finally_block (addr : string) : E unit :=
  close ;;
  try_except (await wait_closed) (fun _ => ret tt) ;;
  print ("Client disconnected: " ++ addr).

(** [main], up to and including [await server.serve_forever()].  The
    [return] of the first [except] branch is rendered by [connected]: the
    branch yields [false] and the rest of [main] is skipped. *)
Definition main : E unit :=
  print "Starting MAVSDK + TCP server..." ;;
  NewState false (
  print ("Connecting to PX4 via: " ++ PX4_SYSTEM_ADDRESS) ;;
  await (connect PX4_SYSTEM_ADDRESS) ;;
  connected <-
    try_except_timeout
      (wait_connected 20.0 ;;
       print "✅ Drone is connected!" ;;
       ret true)
      (print "❌ Timeout waiting for drone connection." ;;
       print "   Likely MAVLink packets are not reaching WSL on udp://:14540" ;;
       print "   Try tcpdump: sudo tcpdump -n udp port 14540" ;;
       ret false) ;;
  if negb connected then
    ret tt
  else
    try_except_timeout
      (wait_health_ok 45.0 ;;
       print "✅ Health OK: global position & home position are ready.")
      (print "⚠️ Health not OK yet (global/home). Mission may fail." ;;
       print "   In SITL this should become OK; in real drone ensure GPS/home are set.") ;;
    addrs <- StartServer HOST PORT (fun r => Ret r) ;;
    print ("✅ Server listening on " ++ addrs) ;;
    print "Commands: takeoff | mission | land | status | stop" ;;
    ServeForever).

End Handler.

(** ** Running coroutines on the event loop *)

(** What the event loop hands to a suspended coroutine when it resumes it. *)
Inductive answer :=
| Returned (r : result unit)
| Woke
| Line (r : result string)
| ConnectionStates (s : stream Telemetry.ConnectionState)
| Healths (s : stream Telemetry.Health)
| Homes (s : stream Telemetry.Position)
| FirstState (r : result (option Telemetry.ConnectionState))
| Listening (r : result string).

(** What a coroutine was seen to do: each suspension with the answer it got,
    and each effect that does not suspend. *)
Inductive event :=
| EvAwait (c : call) (r : result unit)
| EvSleep (secs : float)
| EvReadline (r : result string)
| EvWaitConnectionState (timeout_s : float)
    (s : stream Telemetry.ConnectionState)
| EvWaitHealth (timeout_s : float) (s : stream Telemetry.Health)
| EvWaitHome (timeout_s : float) (s : stream Telemetry.Position)
| EvFirstConnectionState (r : result (option Telemetry.ConnectionState))
| EvStartServer (host : string) (port : Z) (r : result string)
| EvPrint (msg : string)
| EvClose
| EvNewState (flying : bool)
| EvSetFlying (flying : bool).

(** The calls of [drone.*]; the other two are calls on the client's socket. *)
Definition is_link_call (c : call) : bool :=
  match c with
  | write_drain _ | wait_closed => false
  | _ => true
  end.

Definition on_link (ev : event) : bool :=
  match ev with
  | EvAwait c _ => is_link_call c
  | EvWaitConnectionState _ _ | EvWaitHealth _ _ | EvWaitHome _ _
  | EvFirstConnectionState _ => true
  | _ => false
  end.

Definition writes_flag (ev : event) : bool :=
  match ev with
  | EvNewState _ | EvSetFlying _ => true
  | _ => false
  end.

(** The reply lines among the events: what was handed to [safe_write]. *)
Definition reply_of (ev : event) : option string :=
  match ev with
  | EvAwait (write_drain msg) _ => Some msg
  | _ => None
  end.

Fixpoint replies (evs : list event) : list string :=
  match evs with
  | [] => []
  | ev :: rest =>
      match reply_of ev with
      | Some msg => msg :: replies rest
      | None => replies rest
      end
  end.

(** The variables a coroutine works on: the shared [state["flying"]] and its
    own local [conn] (unbound at first). *)
Record vars := mkVars { flying : bool; conn : option bool }.

(** A coroutine runs without interruption up to its next suspension. *)
Fixpoint settle {A : Type} (v : vars) (p : prog A)
  : list event * (vars * prog A) :=
  match p with
  | Print msg k =>
      let '(evs, r) := settle v k in (EvPrint msg :: evs, r)
  | Close k =>
      let '(evs, r) := settle v k in (EvClose :: evs, r)
  | NewState b k =>
      let '(evs, r) := settle (mkVars b (conn v)) k in (EvNewState b :: evs, r)
  | GetFlying k => settle v (k (flying v))
  | SetFlying b k =>
      let '(evs, r) := settle (mkVars b (conn v)) k in
      (EvSetFlying b :: evs, r)
  | GetConn k => settle v (k (conn v))
  | SetConn c k => settle (mkVars (flying v) (Some c)) k
  | _ => ([], (v, p))
  end.

(** Resuming a suspended coroutine with an answer of the kind it waits for. *)
Definition resume {A : Type} (p : prog A) (a : answer)
  : option (event * prog A) :=
  match p, a with
  | Await c k, Returned r => Some (EvAwait c r, k r)
  | Sleep secs k, Woke => Some (EvSleep secs, k)
  | Readline k, Line r => Some (EvReadline r, k r)
  | WaitConnectionState t k, ConnectionStates s =>
      Some (EvWaitConnectionState t s, k s)
  | WaitHealth t k, Healths s => Some (EvWaitHealth t s, k s)
  | WaitHome t k, Homes s => Some (EvWaitHome t s, k s)
  | FirstConnectionState k, FirstState r =>
      Some (EvFirstConnectionState r, k r)
  | StartServer host port k, Listening r =>
      Some (EvStartServer host port r, k r)
  | _, _ => None
  end.

(** One resumption: the answer is delivered and the coroutine runs to its
    next suspension. *)
Definition step {A : Type} (v : vars) (p : prog A) (a : answer)
  : option (list event * (vars * prog A)) :=
  match resume p a with
  | Some (ev, p') =>
      let '(evs, r) := settle v p' in Some (ev :: evs, r)
  | None => None
  end.

Fixpoint feed {A : Type} (v : vars) (p : prog A) (answers : list answer)
  : option (list event * (vars * prog A)) :=
  match answers with
  | [] => Some ([], (v, p))
  | a :: rest =>
      match step v p a with
      | Some (evs, (v', p')) =>
          match feed v' p' rest with
          | Some (evs', r) => Some ((evs ++ evs')%list, r)
          | None => None
          end
      | None => None
      end
  end.

(** The call a suspended coroutine is waiting on. *)
Definition awaiting {A : Type} (p : prog A) : option call :=
  match p with
  | Await c _ => Some c
  | _ => None
  end.

(** The address a suspended coroutine is about to listen on. *)
Definition starting_server {A : Type} (p : prog A) : option (string * Z) :=
  match p with
  | StartServer host port _ => Some (host, port)
  | _ => None
  end.

(** A coroutine started on [v] and resumed with [answers], one after the
    other, with no other coroutine writing the variables in between. *)
Definition exec {A : Type} (v : vars) (p : prog A) (answers : list answer)
  : option (list event * (vars * prog A)) :=
  let '(evs, (v', p')) := settle v p in
  match feed v' p' answers with
  | Some (evs', r) => Some ((evs ++ evs')%list, r)
  | None => None
  end.

(** Code that nowhere creates or assigns the flag. *)
Fixpoint nowrite {A : Type} (p : prog A) : Prop :=
  match p with
  | Ret _ => True
  | Await _ k => forall r, nowrite (k r)
  | Sleep _ k => nowrite k
  | Readline k => forall r, nowrite (k r)
  | WaitConnectionState _ k => forall s, nowrite (k s)
  | WaitHealth _ k => forall s, nowrite (k s)
  | WaitHome _ k => forall s, nowrite (k s)
  | FirstConnectionState k => forall r, nowrite (k r)
  | StartServer _ _ k => forall r, nowrite (k r)
  | ServeForever => True
  | Print _ k => nowrite k
  | Close k => nowrite k
  | NewState _ _ => False
  | GetFlying k => forall b, nowrite (k b)
  | SetFlying _ _ => False
  | GetConn k => forall c, nowrite (k c)
  | SetConn _ k => nowrite k
  end.

(** The one place where code may assign the flag: as the first thing after
    [drone.action.takeoff()] returned, to [True], or after
    [drone.action.land()] returned, to [False]. *)
Definition confirms (c : call) (r : result unit) (b : bool) : Prop :=
  r = Ok tt
  /\ ((c = action_takeoff /\ b = true) \/ (c = action_land /\ b = false)).

Fixpoint guarded {A : Type} (p : prog A) : Prop :=
  match p with
  | Ret _ => True
  | Await c k =>
      forall r,
        match k r with
        | SetFlying b k' => confirms c r b /\ guarded k'
        | _ => guarded (k r)
        end
  | Sleep _ k => guarded k
  | Readline k => forall r, guarded (k r)
  | WaitConnectionState _ k => forall s, guarded (k s)
  | WaitHealth _ k => forall s, guarded (k s)
  | WaitHome _ k => forall s, guarded (k s)
  | FirstConnectionState k => forall r, guarded (k r)
  | StartServer _ _ k => forall r, guarded (k r)
  | ServeForever => True
  | Print _ k => guarded k
  | Close k => guarded k
  | NewState _ _ => False
  | GetFlying k => forall b, guarded (k b)
  | SetFlying _ _ => False
  | GetConn k => forall c, guarded (k c)
  | SetConn _ k => guarded k
  end.

(** The commands whose branch calls [drone.action]. *)
Definition takeoff_or_land (cmd : string) : bool :=
  (cmd =? "takeoff") || (cmd =? "take off") || (cmd =? "land").

(** The reply to [status] in the specification's words:
    [OK connected=<true|false> flying=<true|false>], in lower case. *)
Definition lowercase_bool (b : bool) : string := if b then "true" else "false".

Definition status_reply_as_specified (connected flying : bool) : string :=
  "OK connected=" ++ lowercase_bool connected
  ++ " flying=" ++ lowercase_bool flying ++ nl.

(** ** Sessions and the server *)

Section EventLoop.

Variable cos : float -> float.
Variable decode_strip_lower : string -> result string.
Variable unbound_conn_msg : string.
Variable none_attribute_msg : string -> string.

(** A fresh turn of the loop of [handle_client]. *)
Definition next_turn : E ctl :=
  loop_turn cos decode_strip_lower unbound_conn_msg none_attribute_msg.

(** Where a [handle_client] coroutine is: in the lines before its [try], in
    a turn of the loop, in the [finally] block (with the exception that is
    propagating, if any), or done. *)
Inductive session :=
| InGreeting (code : E unit)
| InLoop (code : E ctl)
| InFinally (pending : option exn) (code : E unit)
| Finished (r : result unit).

(** Leaving a block whose code has returned or raised. *)
Definition unwind (addr : string) (s : session) : option session :=
  match s with
  | InGreeting (Ret (Ok _)) => Some (InLoop next_turn)
  | InGreeting (Ret (Raise e)) => Some (Finished (Raise e))
  | InLoop (Ret (Ok Continue)) => Some (InLoop next_turn)
  | InLoop (Ret (Ok Break)) => Some (InFinally None (finally_block addr))
  | InLoop (Ret (Raise e)) => Some (InFinally (Some e) (finally_block addr))
  | InFinally None (Ret (Ok _)) => Some (Finished (Ok tt))
  | InFinally (Some e) (Ret (Ok _)) => Some (Finished (Raise e))
  | InFinally _ (Ret (Raise e)) => Some (Finished (Raise e))
  | _ => None
  end.

Definition settle_session (v : vars) (s : session)
  : list event * (vars * session) :=
  match s with
  | InGreeting p =>
      let '(evs, (v', p')) := settle v p in (evs, (v', InGreeting p'))
  | InLoop p =>
      let '(evs, (v', p')) := settle v p in (evs, (v', InLoop p'))
  | InFinally pending p =>
      let '(evs, (v', p')) := settle v p in (evs, (v', InFinally pending p'))
  | Finished r => ([], (v, s))
  end.

Definition resume_session (s : session) (a : answer)
  : option (event * session) :=
  match s with
  | InGreeting p =>
      match resume p a with
      | Some (ev, p') => Some (ev, InGreeting p')
      | None => None
      end
  | InLoop p =>
      match resume p a with
      | Some (ev, p') => Some (ev, InLoop p')
      | None => None
      end
  | InFinally pending p =>
      match resume p a with
      | Some (ev, p') => Some (ev, InFinally pending p')
      | None => None
      end
  | Finished _ => None
  end.

(** The session runs to its next suspension, passing from one block to the
    next when the first is finished. *)
Definition advance (addr : string) (v : vars) (s : session)
  : list event * (vars * session) :=
  let '(evs, (v1, s1)) := settle_session v s in
  match unwind addr s1 with
  | Some s2 =>
      let '(evs2, r) := settle_session v1 s2 in ((evs ++ evs2)%list, r)
  | None => (evs, (v1, s1))
  end.

Definition session_step (addr : string) (v : vars) (s : session) (a : answer)
  : option (list event * (vars * session)) :=
  match resume_session s a with
  | Some (ev, s') =>
      let '(evs, r) := advance addr v s' in Some (ev :: evs, r)
  | None => None
  end.

Fixpoint session_feed (addr : string) (v : vars) (s : session)
  (answers : list answer) : option (list event * (vars * session)) :=
  match answers with
  | [] => Some ([], (v, s))
  | a :: rest =>
      match session_step addr v s a with
      | Some (evs, (v', s')) =>
          match session_feed addr v' s' rest with
          | Some (evs', r) => Some ((evs ++ evs')%list, r)
          | None => None
          end
      | None => None
      end
  end.

(** [handle_client(reader, writer, drone, state)] for the peer [addr], from
    its first line. *)
Definition handle_client (addr : string) : session :=
  InGreeting (greeting addr).

(** One connection: the peer's address, the coroutine's local [conn] and
    where the coroutine is. *)
Record client := mkClient {
  addr : string;
  conn_var : option bool;
  at_session : session
}.

(** The process: the shared flag, the [main] coroutine and the sessions
    started so far. *)
Record system := mkSystem {
  state_flying : bool;
  main_task : E unit;
  clients : list client
}.

(** What the event loop does next: it resumes [main], hands a new connection
    to the server, or resumes the session of a client. *)
Inductive input :=
| ToMain (a : answer)
| Accept (addr : string)
| ToClient (i : nat) (a : answer).

Definition is_serving {A : Type} (p : prog A) : bool :=
  match p with
  | ServeForever => true
  | _ => false
  end.

Fixpoint replace_nth {T : Type} (i : nat) (x : T) (l : list T) : list T :=
  match l, i with
  | [], _ => []
  | _ :: rest, O => x :: rest
  | y :: rest, S j => y :: replace_nth j x rest
  end.

Definition sys_step (s : system) (i : input) : option (list event * system) :=
  match i with
  | ToMain a =>
      match step (mkVars (state_flying s) None) (main_task s) a with
      | Some (evs, (v, p)) => Some (evs, mkSystem (flying v) p (clients s))
      | None => None
      end
  | Accept peer =>
      if is_serving (main_task s) then
        let '(evs, (v, c)) :=
          advance peer (mkVars (state_flying s) None) (handle_client peer) in
        Some (evs, mkSystem (flying v) (main_task s)
                     (clients s ++ [mkClient peer (conn v) c])%list)
      else None
  | ToClient n a =>
      match nth_error (clients s) n with
      | Some c =>
          match session_step (addr c) (mkVars (state_flying s) (conn_var c))
                  (at_session c) a with
          | Some (evs, (v, c')) =>
              Some (evs, mkSystem (flying v) (main_task s)
                           (replace_nth n (mkClient (addr c) (conn v) c')
                              (clients s)))
          | None => None
          end
      | None => None
      end
  end.

Fixpoint sys_run (s : system) (inputs : list input)
  : option (list event * system) :=
  match inputs with
  | [] => Some ([], s)
  | i :: rest =>
      match sys_step s i with
      | Some (evs, s') =>
          match sys_run s' rest with
          | Some (evs', s'') => Some ((evs ++ evs')%list, s'')
          | None => None
          end
      | None => None
      end
  end.

(** Sessions whose code assigns the flag only where [guarded] allows, and
    processes made of such sessions and a [main] that assigns it nowhere. *)
Definition session_guarded (s : session) : Prop :=
  match s with
  | InGreeting p => guarded p
  | InLoop p => guarded p
  | InFinally _ p => guarded p
  | Finished _ => True
  end.

Definition system_guarded (s : system) : Prop :=
  nowrite (main_task s)
  /\ Forall (fun c => session_guarded (at_session c)) (clients s).

(** The process as [asyncio.run(main())] starts it: [main] runs to its first
    suspension.  [before] stands for the flag before [main] creates it. *)
Definition boot (before : bool) : list event * system :=
  let '(evs, (v, p)) :=
    settle (mkVars before None) main in
  (evs, mkSystem (flying v) p []).

End EventLoop.

End Server.

(** ** Sample parameters, for running the model on concrete inputs *)

Module Sample.

Import Server.

(** A stand-in for [math.cos]: the first terms of its series. *)
Definition cos (x : float) : float := (1 - x * x / 2)%float.

(** What [math.cos(math.radians(90))] returns. *)
Definition cos_at_pole (x : float) : float := 6.123233995736766e-17%float.

(** Decoding where every line is ASCII, lower case and already stripped. *)
Definition decode_strip_lower (line : string) : result string := Ok line.

Definition unbound_conn_msg : string :=
  "cannot access local variable 'conn' where it is not associated with a value".

Definition none_attribute_msg (name : string) : string :=
  "'NoneType' object has no attribute '" ++ name ++ "'".

Definition loop_turn : E ctl :=
  Server.loop_turn cos decode_strip_lower unbound_conn_msg none_attribute_msg.

Definition next_turn : E ctl :=
  Server.next_turn cos decode_strip_lower unbound_conn_msg none_attribute_msg.

Definition session_feed :=
  Server.session_feed cos decode_strip_lower unbound_conn_msg
    none_attribute_msg.

Definition sys_step :=
  Server.sys_step cos decode_strip_lower unbound_conn_msg none_attribute_msg.

Definition sys_run :=
  Server.sys_run cos decode_strip_lower unbound_conn_msg none_attribute_msg.

(** A link that is connected and healthy at boot, and one client. *)
Definition connected_now : stream Telemetry.ConnectionState :=
  mkStream [Telemetry.mkConnectionState true] Deadline.

Definition never_connected : stream Telemetry.ConnectionState :=
  mkStream [Telemetry.mkConnectionState false] Deadline.

Definition healthy_now : stream Telemetry.Health :=
  mkStream [Telemetry.mkHealth true true] Deadline.

Definition never_healthy : stream Telemetry.Health :=
  mkStream [Telemetry.mkHealth true false] Deadline.

Definition home_fix : stream Telemetry.Position :=
  mkStream [Telemetry.mkPosition 0 0; Telemetry.mkPosition 24.7 46.6] Deadline.

Definition boot_and_accept : list input :=
  [ToMain (Returned (Ok tt));
   ToMain (ConnectionStates connected_now);
   ToMain (Healths healthy_now);
   ToMain (Listening (Ok "('0.0.0.0', 9999)"));
   Accept "('127.0.0.1', 50000)";
   ToClient 0 (Returned (Ok tt))].

End Sample.

(** ** Observations on the events of a coroutine *)

Module Protocol.

Import Server.

(** Code all of whose events, on every path, pass the test [ok]. *)
Fixpoint emits_only {A : Type} (ok : event -> bool) (p : prog A) : Prop :=
  match p with
  | Ret _ => True
  | Await c k =>
      forall r, ok (EvAwait c r) = true /\ emits_only ok (k r)
  | Sleep secs k => ok (EvSleep secs) = true /\ emits_only ok k
  | Readline k =>
      forall r, ok (EvReadline r) = true /\ emits_only ok (k r)
  | WaitConnectionState t k =>
      forall s, ok (EvWaitConnectionState t s) = true /\ emits_only ok (k s)
  | WaitHealth t k =>
      forall s, ok (EvWaitHealth t s) = true /\ emits_only ok (k s)
  | WaitHome t k =>
      forall s, ok (EvWaitHome t s) = true /\ emits_only ok (k s)
  | FirstConnectionState k =>
      forall r, ok (EvFirstConnectionState r) = true /\ emits_only ok (k r)
  | StartServer host port k =>
      forall r, ok (EvStartServer host port r) = true /\ emits_only ok (k r)
  | ServeForever => True
  | Print msg k => ok (EvPrint msg) = true /\ emits_only ok k
  | Close k => ok EvClose = true /\ emits_only ok k
  | NewState b k => ok (EvNewState b) = true /\ emits_only ok k
  | GetFlying k => forall b, emits_only ok (k b)
  | SetFlying b k => ok (EvSetFlying b) = true /\ emits_only ok k
  | GetConn k => forall c, emits_only ok (k c)
  | SetConn _ k => emits_only ok k
  end.

(** What a turn of the loop that handles the command word [cmd] may do:
    [arm] and [takeoff] belong to [takeoff] and [take off], [land] to
    [land], the mission calls and the home stream to [mission], the read of
    the connection state to [status]; the flag is set to [True] by a
    takeoff and to [False] by a land; no turn reads a line, connects,
    waits for the boot streams, starts a server or closes the writer. *)
Definition is_takeoff (cmd : string) : bool :=
  (cmd =? "takeoff") || (cmd =? "take off").

Definition permitted (cmd : string) (ev : event) : bool :=
  match ev with
  | EvAwait c _ =>
      match c with
      | action_arm | action_takeoff => is_takeoff cmd
      | action_land => cmd =? "land"
      | mission_clear_mission | mission_upload_mission _
      | mission_start_mission => cmd =? "mission"
      | write_drain _ => true
      | connect _ | wait_closed => false
      end
  | EvSleep _ => is_takeoff cmd || (cmd =? "mission")
  | EvWaitHome _ _ => cmd =? "mission"
  | EvFirstConnectionState _ => cmd =? "status"
  | EvPrint _ => cmd =? "mission"
  | EvSetFlying b => if b then is_takeoff cmd else cmd =? "land"
  | EvReadline _ | EvWaitConnectionState _ _ | EvWaitHealth _ _
  | EvStartServer _ _ _ | EvClose | EvNewState _ => false
  end.

Definition is_mission_call (ev : event) : bool :=
  match ev with
  | EvAwait mission_clear_mission _
  | EvAwait (mission_upload_mission _) _
  | EvAwait mission_start_mission _ => true
  | _ => false
  end.

(** A send that raised. *)
Definition send_raised (ev : event) : bool :=
  match ev with
  | EvAwait (write_drain _) (Raise _) => true
  | _ => false
  end.

(** Code that, on every path where no send raises, has sent one reply when
    it returns ([sent] tells whether the reply is already out). *)
Fixpoint replies_once {A : Type} (sent : bool) (p : prog (result A)) : Prop :=
  match p with
  | Ret (Ok _) => sent = true
  | Ret (Raise _) => True
  | Await (write_drain _) k => sent = false /\ replies_once true (k (Ok tt))
  | Await _ k => forall r, replies_once sent (k r)
  | Sleep _ k => replies_once sent k
  | Readline k => forall r, replies_once sent (k r)
  | WaitConnectionState _ k => forall s, replies_once sent (k s)
  | WaitHealth _ k => forall s, replies_once sent (k s)
  | WaitHome _ k => forall s, replies_once sent (k s)
  | FirstConnectionState k => forall r, replies_once sent (k r)
  | StartServer _ _ k => forall r, replies_once sent (k r)
  | ServeForever => True
  | Print _ k => replies_once sent k
  | Close k => replies_once sent k
  | NewState _ k => replies_once sent k
  | GetFlying k => forall b, replies_once sent (k b)
  | SetFlying _ k => replies_once sent k
  | GetConn k => forall c, replies_once sent (k c)
  | SetConn _ k => replies_once sent k
  end.

Definition is_close (ev : event) : bool :=
  match ev with
  | EvClose => true
  | _ => false
  end.

(** How many times the writer was closed. *)
Definition closes (evs : list event) : nat :=
  List.length (filter is_close evs).

(** Events that are no close of the writer, and events that are neither a
    close, nor a send, nor a read of the client's socket. *)
Definition open_event (ev : event) : bool := negb (is_close ev).

Definition after_close (ev : event) : bool :=
  match ev with
  | EvClose | EvAwait (write_drain _) _ | EvReadline _ => false
  | _ => true
  end.

Definition finished (s : session) : bool :=
  match s with
  | Finished _ => true
  | _ => false
  end.

(** Where a session that got past its greeting has closed the writer:
    from the [finally] block on, whose first statement is the close. *)
Definition closed (s : session) : bool :=
  match s with
  | InFinally _ _ | Finished _ => true
  | _ => false
  end.

(** The code a session still has to run closes the writer nowhere while the
    session is open, and touches the socket nowhere once it is closed. *)
Definition code_ok (s : session) : Prop :=
  match s with
  | InGreeting p => emits_only open_event p
  | InLoop p => emits_only open_event p
  | InFinally _ p => emits_only after_close p
  | Finished _ => True
  end.

Section Run.

Variable cos : float -> float.
Variable decode_strip_lower : string -> result string.
Variable unbound_conn_msg : string.
Variable none_attribute_msg : string -> string.

(** A whole session for the peer [addr]: the coroutine is started, runs to
    its first suspension, and is resumed with [answers]. *)
Definition session_run (addr : string) (v : vars) (answers : list answer)
  : option (list event * (vars * session)) :=
  let '(evs, (v0, s0)) :=
    advance cos decode_strip_lower unbound_conn_msg none_attribute_msg
      addr v (handle_client addr) in
  match
    session_feed cos decode_strip_lower unbound_conn_msg none_attribute_msg
      addr v0 s0 answers
  with
  | Some (evs', r) => Some ((evs ++ evs')%list, r)
  | None => None
  end.

End Run.

End Protocol.

(** ** The voice client's mapping from speech to commands *)

Module Client.

(** [needle in text] on Python strings. *)
Fixpoint contains (needle text : string) : bool :=
  String.prefix needle text
  || match text with
     | EmptyString => false
     | String _ rest => contains needle rest
     end.

(** What the worker does with a recognised phrase. *)
Inductive action :=
| Heard (text : string)
| Send (cmd : string).

(** The loop of [worker] over what the recogniser yields for the audio
    blocks read from the queue: [None] when [AcceptWaveform] is false,
    else the recognised text, stripped and lower-cased.  The result is
    what the worker did and whether it left the loop. *)
Fixpoint worker (results : list (option string)) : list action * bool :=
  match results with
  | [] => ([], false)
  | None :: rest => worker rest
  | Some text :: rest =>
      if text =? "" then worker rest
      else if contains "takeoff" text || contains "take off" text then
        let '(acts, ended) := worker rest in
        (Heard text :: Send "takeoff" :: acts, ended)
      else if contains "mission" text then
        let '(acts, ended) := worker rest in
        (Heard text :: Send "mission" :: acts, ended)
      else if contains "land" text then
        let '(acts, ended) := worker rest in
        (Heard text :: Send "land" :: acts, ended)
      else if contains "stop" text then
        ([Heard text; Send "stop"], true)
      else
        let '(acts, ended) := worker rest in
        (Heard text :: acts, ended)
  end.

(** The commands among the worker's actions, in order. *)
Fixpoint sent (acts : list action) : list string :=
  match acts with
  | [] => []
  | Send cmd :: rest => cmd :: sent rest
  | Heard _ :: rest => sent rest
  end.

End Client.

(** * Properties *)

Import Planner Server.

(** ** The planner *)

(** C2: [build_square_mission] returns exactly four waypoints, the corners
    of a closed axis-aligned square path: the origin moved by the latitude
    delta [side_m / 1.11e5], then also by the longitude delta, then by the
    longitude delta alone, and last the origin itself; all four carry the
    given altitude and speed and have the fly-through flag set.  It is a
    function of its arguments and of [math.cos] alone. *)
Theorem build_square_mission_square
  (cos : float -> float) (lat lon alt side_m speed : float) :
  let dlat := (side_m / 1.11e5)%float in
  let dlon :=
    (side_m / (1.11e5 * max 0.2 (abs (cos (radians lat)))))%float in
  let corners := mission_items (build_square_mission cos lat lon alt side_m speed) in
  List.length corners = 4%nat
  /\ map (fun it => (latitude_deg it, longitude_deg it)) corners
     = [ ((lat + dlat)%float, lon);
         ((lat + dlat)%float, (lon + dlon)%float);
         (lat, (lon + dlon)%float);
         (lat, lon) ]
  /\ Forall (fun it => relative_altitude_m it = alt
                       /\ speed_m_s it = speed
                       /\ is_fly_through it = true) corners.
Proof.
  cbv zeta. unfold build_square_mission, dlat_of, dlon_of, lon_divisor.
  cbn [mission_items List.length map item latitude_deg longitude_deg].
  split; [reflexivity|]. split; [reflexivity|].
  repeat constructor.
Qed.

(** ** Binary64 arithmetic behind the longitude delta *)

Section Binary64.

#[local] Open Scope Z_scope.


Lemma digits2_pos_bounds (p : positive) :
  2 ^ (Zpos (digits2_pos p) - 1) <= Zpos p < 2 ^ Zpos (digits2_pos p).
Proof.
  induction p as [p IH|p IH|]; cbn [digits2_pos].
  - rewrite Pos2Z.inj_succ.
    replace (Z.succ (Zpos (digits2_pos p)) - 1)
      with (Z.succ (Zpos (digits2_pos p) - 1)) by lia.
    rewrite !Z.pow_succ_r by lia. lia.
  - rewrite Pos2Z.inj_succ.
    replace (Z.succ (Zpos (digits2_pos p)) - 1)
      with (Z.succ (Zpos (digits2_pos p) - 1)) by lia.
    rewrite !Z.pow_succ_r by lia. lia.
  - split; [discriminate|reflexivity].
Qed.

Lemma Zdigits2_nonneg m : 0 <= m -> 0 <= Zdigits2 m.
Proof. destruct m; cbn; lia. Qed.

Lemma Zdigits2_upper m : 0 <= m -> m < 2 ^ Zdigits2 m.
Proof.
  destruct m as [|p|p]; cbn [Zdigits2]; intros H;
    [reflexivity|apply digits2_pos_bounds|lia].
Qed.

Lemma Zdigits2_lower m : 0 < m -> 2 ^ (Zdigits2 m - 1) <= m.
Proof.
  destruct m as [|p|p]; cbn [Zdigits2]; intros H;
    [lia|apply digits2_pos_bounds|lia].
Qed.

Lemma Zdigits2_le m k : 0 <= k -> 0 <= m < 2 ^ k -> Zdigits2 m <= k.
Proof.
  intros Hk [H0 Hm].
  destruct (Z.eq_dec m 0) as [->|Hne]; [cbn; lia|].
  pose proof (Zdigits2_lower m ltac:(lia)) as Hl.
  pose proof (Zdigits2_nonneg m H0) as Hd.
  destruct (Z_le_gt_dec (Zdigits2 m) k) as [|Hgt]; [assumption|].
  assert (2 ^ k <= 2 ^ (Zdigits2 m - 1)) by (apply Z.pow_le_mono_r; lia).
  lia.
Qed.

Lemma Zdigits2_ge m k : 0 <= k -> 2 ^ k <= m -> k + 1 <= Zdigits2 m.
Proof.
  intros Hk Hm.
  assert (0 < 2 ^ k) by (apply Z.pow_pos_nonneg; lia).
  pose proof (Zdigits2_upper m ltac:(lia)) as Hu.
  pose proof (Zdigits2_nonneg m ltac:(lia)) as Hd.
  destruct (Z_le_gt_dec (k + 1) (Zdigits2 m)) as [|Hgt]; [assumption|].
  assert (2 ^ Zdigits2 m <= 2 ^ k) by (apply Z.pow_le_mono_r; lia).
  lia.
Qed.

Lemma shr_1_m mrs : 0 <= shr_m mrs -> shr_m (shr_1 mrs) = shr_m mrs / 2.
Proof.
  destruct mrs as [m r s]. cbn [shr_m shr_1]. intros Hm.
  destruct m as [|[p|p|]|p]; cbn [shr_m].
  - reflexivity.
  - rewrite Pos2Z.inj_xI. apply Z.div_unique with 1; lia.
  - rewrite Pos2Z.inj_xO. apply Z.div_unique with 0; lia.
  - reflexivity.
  - lia.
Qed.

Lemma iter_shr_1_m (n : positive) :
  forall mrs,
    0 <= shr_m mrs ->
    shr_m (iter_pos shr_1 n mrs) = shr_m mrs / 2 ^ Zpos n.
Proof.
  induction n as [n IH|n IH|]; intros mrs Hm; cbn [iter_pos].
  - assert (H1 : 0 <= shr_m (shr_1 mrs))
      by (rewrite shr_1_m by assumption; apply Z.div_pos; lia).
    assert (H2 : 0 <= shr_m (iter_pos shr_1 n (shr_1 mrs)))
      by (rewrite IH by assumption; apply Z.div_pos;
          [assumption|apply Z.pow_pos_nonneg; lia]).
    rewrite IH by assumption. rewrite IH by assumption.
    rewrite shr_1_m by assumption.
    assert (Hp : 0 < 2 ^ Zpos n) by (apply Z.pow_pos_nonneg; lia).
    rewrite !Z.div_div by lia.
    f_equal.
    replace (Zpos n~1) with (Z.succ (Zpos n + Zpos n)) by lia.
    rewrite Z.pow_succ_r by lia. rewrite Z.pow_add_r by lia. lia.
  - assert (H2 : 0 <= shr_m (iter_pos shr_1 n mrs))
      by (rewrite IH by assumption; apply Z.div_pos;
          [assumption|apply Z.pow_pos_nonneg; lia]).
    rewrite IH by assumption. rewrite IH by assumption.
    assert (Hp : 0 < 2 ^ Zpos n) by (apply Z.pow_pos_nonneg; lia).
    rewrite !Z.div_div by lia.
    f_equal.
    replace (Zpos n~0) with (Zpos n + Zpos n) by lia.
    rewrite Z.pow_add_r by lia. lia.
  - rewrite shr_1_m by assumption. reflexivity.
Qed.

Lemma fexp_binary64 e : fexp prec emax e = Z.max (e - 53) (-1074).
Proof. reflexivity. Qed.

Lemma shr_record_of_loc_m m l : shr_m (shr_record_of_loc m l) = m.
Proof. destruct l as [|[]]; reflexivity. Qed.

Lemma shr_fexp_spec m e l :
  0 <= m ->
  exists mrs,
    shr_fexp prec emax m e l
    = (mrs, Z.max e (fexp prec emax (Zdigits2 m + e)))
    /\ shr_m mrs
       = (if 0 <? fexp prec emax (Zdigits2 m + e) - e
          then m / 2 ^ (fexp prec emax (Zdigits2 m + e) - e)
          else m).
Proof.
  intros Hm. unfold shr_fexp, shr.
  destruct (fexp prec emax (Zdigits2 m + e) - e) as [|n|n] eqn:Hn.
  - eexists. split; [f_equal; lia|]. apply shr_record_of_loc_m.
  - eexists. split; [f_equal; lia|].
    rewrite iter_shr_1_m by (rewrite shr_record_of_loc_m; assumption).
    rewrite shr_record_of_loc_m. reflexivity.
  - eexists. split; [f_equal; lia|]. apply shr_record_of_loc_m.
Qed.

Lemma round_nearest_even_bounds m l :
  m <= round_nearest_even m l <= m + 1.
Proof.
  destruct l as [|[]]; cbn [round_nearest_even]; try lia.
  destruct (Z.even m); lia.
Qed.

(** Rounding a mantissa of at least 53 bits in the normal range: the
    result has the exponent that keeps 53 bits and a mantissa no smaller
    than the truncated one, or, when rounding carries, the next exponent. *)
Lemma binary_round_aux_normal sx mx ex lx :
  0 <= mx ->
  53 <= Zdigits2 mx ->
  -1074 <= ex + Zdigits2 mx - 53 ->
  exists m2 e2,
    binary_round_aux prec emax sx mx ex lx
    = (if e2 <=? 971 then S754_finite sx m2 e2 else S754_infinity sx)
    /\ ((e2 = ex + Zdigits2 mx - 53
         /\ mx / 2 ^ (Zdigits2 mx - 53) <= Zpos m2)
        \/ (e2 = ex + Zdigits2 mx - 53 + 1 /\ Zpos m2 = 2 ^ 52)).
Proof.
  intros Hmx0 Hd He.
  assert (Hmx : 0 < mx) by (destruct mx; cbn in Hd; lia).
  set (d := Zdigits2 mx) in *.
  pose proof (Zdigits2_upper mx ltac:(lia)) as Hup.
  pose proof (Zdigits2_lower mx Hmx) as Hlow.
  fold d in Hup, Hlow.
  unfold binary_round_aux.
  destruct (shr_fexp_spec mx ex lx ltac:(lia)) as (mrs1 & -> & Hm1).
  fold d in Hm1 |- *.
  rewrite fexp_binary64 in Hm1 |- *.
  replace (Z.max (d + ex - 53) (-1074)) with (ex + (d - 53)) in * by lia.
  replace (ex + (d - 53) - ex) with (d - 53) in Hm1 by lia.
  replace (Z.max ex (ex + (d - 53))) with (ex + (d - 53)) by lia.
  assert (Hq : shr_m mrs1 = mx / 2 ^ (d - 53)).
  { rewrite Hm1. destruct (0 <? d - 53) eqn:Hlt; [reflexivity|].
    apply Z.ltb_ge in Hlt. replace (d - 53) with 0 by lia.
    rewrite Z.pow_0_r, Z.div_1_r. reflexivity. }
  clear Hm1.
  assert (Hpow : 0 < 2 ^ (d - 53)) by (apply Z.pow_pos_nonneg; lia).
  assert (Hsplit : 2 ^ (d - 1) = 2 ^ 52 * 2 ^ (d - 53))
    by (rewrite <- Z.pow_add_r by lia; f_equal; lia).
  assert (Hsplit' : 2 ^ d = 2 ^ 53 * 2 ^ (d - 53))
    by (rewrite <- Z.pow_add_r by lia; f_equal; lia).
  assert (Hqlow : 2 ^ 52 <= mx / 2 ^ (d - 53))
    by (apply Z.div_le_lower_bound; lia).
  assert (Hqup : mx / 2 ^ (d - 53) < 2 ^ 53)
    by (apply Z.div_lt_upper_bound; lia).
  set (r := round_nearest_even (shr_m mrs1) (loc_of_shr_record mrs1)).
  pose proof (round_nearest_even_bounds (shr_m mrs1) (loc_of_shr_record mrs1))
    as Hr.
  fold r in Hr. rewrite Hq in Hr.
  destruct (shr_fexp_spec r (ex + (d - 53)) loc_Exact ltac:(lia))
    as (mrs2 & -> & Hm2).
  rewrite fexp_binary64 in Hm2 |- *.
  destruct (Z_lt_le_dec r (2 ^ 53)) as [Hlt|Hge].
  - assert (Hdr : Zdigits2 r = 53).
    { apply Z.le_antisymm.
      - apply Zdigits2_le; lia.
      - apply (Zdigits2_ge r 52); lia. }
    rewrite Hdr in Hm2 |- *.
    replace (Z.max (53 + (ex + (d - 53)) - 53) (-1074))
      with (ex + (d - 53)) in * by lia.
    replace (ex + (d - 53) - (ex + (d - 53))) with 0 in Hm2 by lia.
    cbn [Z.ltb Z.compare] in Hm2.
    rewrite Z.max_id.
    destruct (shr_m mrs2) as [|m2|m2] eqn:Hs2; try lia.
    exists m2, (ex + (d - 53)). split; [reflexivity|].
    left. split; lia.
  - assert (Hr53 : r = 2 ^ 53) by lia.
    assert (Hdr : Zdigits2 r = 54) by (rewrite Hr53; reflexivity).
    rewrite Hdr in Hm2 |- *.
    replace (Z.max (54 + (ex + (d - 53)) - 53) (-1074))
      with (ex + (d - 53) + 1) in * by lia.
    replace (ex + (d - 53) + 1 - (ex + (d - 53))) with 1 in Hm2 by lia.
    cbn [Z.ltb Z.compare] in Hm2.
    replace (Z.max (ex + (d - 53)) (ex + (d - 53) + 1))
      with (ex + (d - 53) + 1) by lia.
    rewrite Hr53 in Hm2. change (2 ^ 53 / 2 ^ 1) with (2 ^ 52) in Hm2.
    destruct (shr_m mrs2) as [|m2|m2] eqn:Hs2; try discriminate Hm2.
    exists m2, (ex + (d - 53) + 1). split; [reflexivity|].
    right. split; [lia|exact Hm2].
Qed.

Lemma valid_binary_normal s m e :
  valid_binary (S754_finite s m e) = true ->
  -1074 < e ->
  Zpos (digits2_pos m) = 53 /\ e <= 971.
Proof.
  unfold SpecFloat.valid_binary, bounded, canonical_mantissa.
  rewrite fexp_binary64. intros Hv He.
  apply andb_true_iff in Hv. destruct Hv as [Hc Hb].
  apply Z.eqb_eq in Hc. apply Z.leb_le in Hb.
  change (Z.sub emax prec) with 971 in Hb. lia.
Qed.

Lemma Prim2SF_lat_scale :
  Prim2SF 1.11e5 = S754_finite false 7627861917696000 (-36).
Proof. vm_compute. reflexivity. Qed.

Lemma Prim2SF_floor : Prim2SF 0.2 = S754_finite false 7205759403792794 (-55).
Proof. vm_compute. reflexivity. Qed.

Lemma Prim2SF_least_divisor :
  Prim2SF (1.11e5 * 0.2) = S754_finite false 6102289534156800 (-38).
Proof. vm_compute. reflexivity. Qed.

(** The product of [1.11e5] and a float above [0.2] is at least
    [1.11e5 * 0.2], rounding included. *)
Lemma SFleb_finite_pos m1 e1 m2 e2 :
  e1 < e2 \/ (e1 = e2 /\ Zpos m1 <= Zpos m2) ->
  SFleb (S754_finite false m1 e1) (S754_finite false m2 e2) = true.
Proof.
  unfold SFleb, SFcompare. intros [Hlt|[-> Hle]].
  - apply Z.compare_lt_iff in Hlt. rewrite Hlt. reflexivity.
  - rewrite Z.compare_refl. rewrite Pos.compare_cont_spec.
    cbn [Pos.switch_Eq].
    destruct (Pos.compare_spec m1 m2); try reflexivity. lia.
Qed.
Lemma SFltb_finite_pos m1 e1 m2 e2 :
  SFltb (S754_finite false m1 e1) (S754_finite false m2 e2) = true ->
  e1 < e2 \/ (e1 = e2 /\ Zpos m1 < Zpos m2).
Proof.
  unfold SFltb, SFcompare. intros H.
  destruct (Z.compare_spec e1 e2) as [Heq|Hl|Hg]; try discriminate H.
  - right. split; [assumption|].
    rewrite Pos.compare_cont_spec in H. cbn [Pos.switch_Eq] in H.
    destruct (Pos.compare_spec m1 m2); try discriminate H. lia.
  - left. assumption.
Qed.

(** The product of [1.11e5] and a float above [0.2] is at least
    [1.11e5 * 0.2], rounding included. *)
Lemma mul_above_floor mm em :
  valid_binary (S754_finite false mm em) = true ->
  SFltb (Prim2SF 0.2) (S754_finite false mm em) = true ->
  SFleb (Prim2SF (1.11e5 * 0.2))
    (SF64mul (Prim2SF 1.11e5) (S754_finite false mm em)) = true.
Proof.
  rewrite Prim2SF_floor, Prim2SF_least_divisor, Prim2SF_lat_scale.
  intros Hv Hlt.
  assert (Hcmp : -55 < em \/ (-55 = em /\ 7205759403792794 < Zpos mm))
    by (apply SFltb_finite_pos; exact Hlt).
  destruct (valid_binary_normal _ _ _ Hv ltac:(lia)) as [Hdm Hem].
  pose proof (digits2_pos_bounds mm) as Hmm. rewrite Hdm in Hmm.
  change (2 ^ (53 - 1)) with 4503599627370496 in Hmm.
  change (2 ^ 53) with 9007199254740992 in Hmm.
  unfold SF64mul, SFmul. cbn [xorb].
  set (P := Zpos (7627861917696000 * mm)).
  assert (HP : P = 7627861917696000 * Zpos mm) by reflexivity.
  clearbody P.
  assert (Hlow : 2 ^ 104 <= P)
    by (change (2 ^ 104) with 20282409603651670423947251286016; lia).
  assert (Hup : P < 2 ^ 106)
    by (change (2 ^ 106) with 81129638414606681695789005144064; lia).
  pose proof (Zdigits2_ge P 104 ltac:(lia) Hlow) as Hd1.
  pose proof (Zdigits2_le P 106 ltac:(lia) ltac:(lia)) as Hd2.
  destruct (binary_round_aux_normal false P (-36 + em) loc_Exact
              ltac:(lia) ltac:(lia) ltac:(lia))
    as (m2 & e2 & -> & Hcase).
  assert (Hd55 : em = -55 -> Zdigits2 P = 106).
  { intros ->. apply Z.le_antisymm; [assumption|].
    apply (Zdigits2_ge P 105); [lia|].
    change (2 ^ 105) with 40564819207303340847894502572032. lia. }
  assert (Hgoal : -38 < e2 \/ (e2 = -38 /\ 6102289534156800 <= Zpos m2)).
  { destruct Hcase as [[He2 Hm2]|[He2 Hm2]].
    - assert (Hd : Zdigits2 P = 105 \/ Zdigits2 P = 106) by lia.
      destruct Hd as [Hd|Hd]; rewrite Hd in *.
      + assert (em <> -55) by (intros Heq; specialize (Hd55 Heq); lia).
        destruct (Z.eq_dec em (-54)) as [->|Hne]; [|left; lia].
        right. split; [lia|].
        eapply Z.le_trans; [|exact Hm2].
        apply Z.div_le_lower_bound; [reflexivity|].
        change (2 ^ (105 - 53)) with 4503599627370496. lia.
      + destruct (Z.eq_dec em (-55)) as [->|Hne]; [|left; lia].
        right. split; [lia|].
        eapply Z.le_trans; [|exact Hm2].
        apply Z.div_le_lower_bound; [reflexivity|].
        change (2 ^ (106 - 53)) with 9007199254740992. lia.
    - left.
      destruct (Z.eq_dec em (-55)) as [Heq|Hne];
        [specialize (Hd55 Heq)|]; lia. }
  destruct (e2 <=? 971); [|reflexivity].
  apply SFleb_finite_pos. lia.
Qed.

Lemma SFleb_finite_inv m1 e1 y :
  SFleb (S754_finite false m1 e1) y = true ->
  y = S754_infinity false
  \/ exists m2 e2,
       y = S754_finite false m2 e2
       /\ (e1 < e2 \/ (e1 = e2 /\ Zpos m1 <= Zpos m2)).
Proof.
  unfold SFleb, SFcompare. intros H.
  destruct y as [s|[|]|  |[|] m2 e2]; try discriminate H.
  - left. reflexivity.
  - right. exists m2, e2. split; [reflexivity|].
    destruct (Z.compare_spec e1 e2) as [Heq|Hl|Hg]; try discriminate H.
    + right. split; [assumption|].
      rewrite Pos.compare_cont_spec in H. cbn [Pos.switch_Eq] in H.
      destruct (Pos.compare_spec m1 m2); try discriminate H; lia.
    + left. assumption.
Qed.

(** Rounding cannot overflow when the exponent and the magnitude are far
    enough below the largest ones. *)
Lemma binary_round_aux_finite sx mx ex lx :
  0 <= mx ->
  ex <= 960 ->
  Zdigits2 mx + ex <= 1020 ->
  SF_finite (binary_round_aux prec emax sx mx ex lx).
Proof.
  intros Hmx Hex Hd.
  unfold binary_round_aux.
  destruct (shr_fexp_spec mx ex lx Hmx) as (mrs1 & -> & Hm1).
  rewrite fexp_binary64 in Hm1 |- *.
  set (d := Zdigits2 mx) in *.
  set (e1 := Z.max ex (Z.max (d + ex - 53) (-1074))).
  pose proof (Zdigits2_upper mx Hmx) as Hup. fold d in Hup.
  pose proof (Zdigits2_nonneg mx Hmx) as Hd0. fold d in Hd0.
  assert (H1 : 0 <= shr_m mrs1 /\ Zdigits2 (shr_m mrs1) + e1 <= 1020).
  { rewrite Hm1.
    destruct (0 <? Z.max (d + ex - 53) (-1074) - ex) eqn:Hn.
    - apply Z.ltb_lt in Hn.
      set (n := Z.max (d + ex - 53) (-1074) - ex) in *.
      assert (Hpow : 0 < 2 ^ n) by (apply Z.pow_pos_nonneg; lia).
      assert (Hq0 : 0 <= mx / 2 ^ n) by (apply Z.div_pos; lia).
      split; [assumption|].
      assert (He1 : e1 = ex + n) by (unfold e1, n; lia).
      destruct (Z_le_gt_dec n d) as [Hle|Hgt].
      + assert (Hq : mx / 2 ^ n < 2 ^ (d - n)).
        { apply Z.div_lt_upper_bound; [assumption|].
          rewrite <- Z.pow_add_r by lia.
          replace (n + (d - n)) with d by lia. assumption. }
        pose proof (Zdigits2_le (mx / 2 ^ n) (d - n) ltac:(lia) ltac:(lia)).
        lia.
      + assert (Hq : mx / 2 ^ n = 0).
        { apply Z.div_small. split; [assumption|].
          eapply Z.lt_le_trans; [exact Hup|].
          apply Z.pow_le_mono_r; lia. }
        rewrite Hq. cbn [Zdigits2]. unfold e1. lia.
    - apply Z.ltb_ge in Hn. split; [assumption|]. fold d. unfold e1. lia. }
  destruct H1 as [Hm1pos Hd1]. clear Hm1.
  set (r := round_nearest_even (shr_m mrs1) (loc_of_shr_record mrs1)).
  pose proof (round_nearest_even_bounds (shr_m mrs1) (loc_of_shr_record mrs1))
    as Hr.
  fold r in Hr.
  assert (Hdr : Zdigits2 r <= Zdigits2 (shr_m mrs1) + 1).
  { pose proof (Zdigits2_upper _ Hm1pos) as Hu1.
    pose proof (Zdigits2_nonneg _ Hm1pos) as Hn1.
    apply Zdigits2_le; [lia|]. split; [lia|].
    rewrite Z.pow_add_r by lia. change (2 ^ 1) with 2. lia. }
  destruct (shr_fexp_spec r e1 loc_Exact ltac:(lia)) as (mrs2 & -> & Hm2).
  rewrite fexp_binary64 in Hm2 |- *.
  assert (H2 : 0 <= shr_m mrs2).
  { rewrite Hm2.
    destruct (0 <? Z.max (Zdigits2 r + e1 - 53) (-1074) - e1) eqn:Hn2;
      [|lia].
    apply Z.ltb_lt in Hn2.
    apply Z.div_pos; [lia|]. apply Z.pow_pos_nonneg; lia. }
  destruct (shr_m mrs2) as [|m2|m2]; [exact I| |lia].
  assert (He2 : Z.max e1 (Z.max (Zdigits2 r + e1 - 53) (-1074)) <= 971)
    by (unfold e1 in *; lia).
  apply Z.leb_le in He2.
  change (Z.sub emax prec) with 971. rewrite He2. exact I.
Qed.

(** A finite float divided by a float that is at least [1.11e5 * 0.2]
    is finite: the quotient is smaller than the dividend. *)
Lemma div_by_floor_finite (S D : spec_float) :
  valid_binary S = true ->
  valid_binary D = true ->
  SF_finite S ->
  SFleb (Prim2SF (1.11e5 * 0.2)) D = true ->
  SF_finite (SF64div S D).
Proof.
  rewrite Prim2SF_least_divisor. intros HvS HvD HS HD.
  destruct (SFleb_finite_inv _ _ _ HD) as [->|(md & ed & -> & Hed)].
  - destruct S; try contradiction; exact I.
  - destruct S as [s| | |ss ms es]; try contradiction; [exact I|].
    destruct (valid_binary_normal _ _ _ HvD ltac:(lia)) as [Hdd _].
    pose proof (digits2_pos_bounds md) as Hmd. rewrite Hdd in Hmd.
    change (2 ^ (53 - 1)) with (2 ^ 52) in Hmd.
    assert (HcS : Zpos (digits2_pos ms) <= 53 /\ es <= 971).
    { revert HvS.
      unfold SpecFloat.valid_binary, bounded, canonical_mantissa.
      rewrite fexp_binary64. intros Hv.
      apply andb_true_iff in Hv. destruct Hv as [Hc Hb].
      apply Z.eqb_eq in Hc. apply Z.leb_le in Hb.
      change (Z.sub emax prec) with 971 in Hb. lia. }
    pose proof (digits2_pos_bounds ms) as Hms.
    unfold SF64div, SFdiv, SFdiv_core_binary.
    cbn [Zdigits2]. rewrite Hdd. rewrite fexp_binary64.
    set (d1 := Zpos (digits2_pos ms)) in *.
    set (e' := Z.min (Z.max (d1 + es - (53 + ed) - 53) (-1074)) (es - ed)).
    set (s := es - ed - e').
    assert (Hs : 0 <= s) by (unfold s, e'; lia).
    set (m' := match s with
               | 0 => Zpos ms
               | Zpos _ => Z.shiftl (Zpos ms) s
               | Zneg _ => 0
               end).
    assert (Hm' : m' = Zpos ms * 2 ^ s).
    { unfold m'. destruct s as [|p|p] eqn:Hsp.
      - rewrite Z.pow_0_r. lia.
      - apply Z.shiftl_mul_pow2. lia.
      - lia. }
    clearbody m'.
    assert (Hpow : 0 < 2 ^ s) by (apply Z.pow_pos_nonneg; lia).
    assert (Hm'0 : 0 <= m') by (rewrite Hm'; lia).
    assert (Hm'up : m' < 2 ^ (d1 + s)).
    { rewrite Hm', Z.pow_add_r by lia.
      apply Z.mul_lt_mono_pos_r; [assumption|apply Hms]. }
    destruct (Z.div_eucl m' (Zpos md)) as [q r] eqn:Hdiv.
    assert (Hq : q = m' / Zpos md) by (unfold Z.div; rewrite Hdiv; reflexivity).
    assert (Hq0 : 0 <= q) by (rewrite Hq; apply Z.div_pos; lia).
    assert (Hqm : q * 2 ^ 52 <= m').
    { pose proof (Z.mul_div_le m' (Zpos md) ltac:(lia)) as Hle.
      rewrite <- Hq in Hle. nia. }
    assert (Hdq : Zdigits2 q + e' <= 1020).
    { destruct (Z_le_gt_dec 52 (d1 + s)) as [Hge|Hlt].
      - assert (Hqlt : q < 2 ^ (d1 + s - 52)).
        { assert (Hsplit : 2 ^ (d1 + s) = 2 ^ (d1 + s - 52) * 2 ^ 52)
            by (rewrite <- Z.pow_add_r by lia; f_equal; lia).
          assert (H52 : 0 < 2 ^ 52) by reflexivity.
          apply (Z.mul_lt_mono_pos_r (2 ^ 52)); [assumption|]. lia. }
        pose proof (Zdigits2_le q (d1 + s - 52) ltac:(lia) ltac:(lia)).
        unfold s, e' in *. lia.
      - assert (Hq00 : q = 0).
        { assert (2 ^ (d1 + s) <= 2 ^ 52)
            by (apply Z.pow_le_mono_r; lia).
          rewrite Hq. apply Z.div_small. lia. }
        rewrite Hq00. cbn [Zdigits2]. unfold e'. lia. }
    apply binary_round_aux_finite; [assumption|unfold e'; lia|assumption].
Qed.

Lemma Prim2SF_infinity : Prim2SF infinity = S754_infinity false.
Proof. vm_compute. reflexivity. Qed.

Lemma SFeqb_refl_finite (x : spec_float) : x <> S754_nan -> SFeqb x x = true.
Proof.
  unfold SFeqb, SFcompare. intros Hx.
  destruct x as [s|[|]| |[|] m e]; try reflexivity; try congruence.
  - rewrite Z.compare_refl, Pos.compare_cont_spec, Pos.compare_refl.
    reflexivity.
  - rewrite Z.compare_refl, Pos.compare_cont_spec, Pos.compare_refl.
    reflexivity.
Qed.

Lemma is_finite_spec (x : float) :
  is_finite x = true <-> SF_finite (Prim2SF x).
Proof.
  unfold is_finite, is_nan, is_infinity.
  rewrite !eqb_spec, abs_spec, Prim2SF_infinity.
  destruct (Prim2SF x) as [s|s| |s m e] eqn:Hx.
  - destruct s; cbn; tauto.
  - destruct s; cbn; split; [discriminate|contradiction
                            |discriminate|contradiction].
  - cbn. split; [discriminate|contradiction].
  - rewrite SFeqb_refl_finite by discriminate. cbn. tauto.
Qed.

#[local] Open Scope float_scope.

Lemma lon_divisor_floor (cos : float -> float) (lat : float) :
  (1.11e5 * 0.2 <=? lon_divisor cos lat) = true.
Proof.
  unfold lon_divisor, max.
  generalize (abs (cos (radians lat))). intros x.
  destruct (0.2 <? x) eqn:Hlt; [|vm_compute; reflexivity].
  rewrite leb_spec, (mul_spec 1.11e5 x).
  rewrite ltb_spec in Hlt.
  pose proof (Prim2SF_valid x) as Hv.
  destruct (Prim2SF x) as [s|s| |s m e] eqn:Hx.
  - rewrite Prim2SF_floor in Hlt. discriminate Hlt.
  - rewrite Prim2SF_floor in Hlt. destruct s; [discriminate Hlt|].
    rewrite Prim2SF_least_divisor, Prim2SF_lat_scale. reflexivity.
  - rewrite Prim2SF_floor in Hlt. discriminate Hlt.
  - destruct s; [rewrite Prim2SF_floor in Hlt; discriminate Hlt|].
    apply mul_above_floor; assumption.
Qed.

(** C3: whatever the latitude (in particular between -90 and 90) and
    whatever [math.cos] returns for it, the longitude delta divides by
    [1.11e5 * max(0.2, abs(cos(radians(lat))))], a float that is at least
    [1.11e5 * 0.2], so neither zero nor NaN; and for a finite [side_m] the
    quotient [dlon] is finite: neither NaN nor an infinity. *)
Theorem lon_divisor_clamped (cos : float -> float) (lat side_m : float) :
  is_finite side_m = true ->
  lon_divisor cos lat = 1.11e5 * max 0.2 (abs (cos (radians lat)))
  /\ (1.11e5 * 0.2 <=? lon_divisor cos lat) = true
  /\ is_zero (lon_divisor cos lat) = false
  /\ is_nan (lon_divisor cos lat) = false
  /\ dlon_of cos lat side_m = side_m / lon_divisor cos lat
  /\ is_finite (dlon_of cos lat side_m) = true.
Proof.
  intros Hside.
  pose proof (lon_divisor_floor cos lat) as Hfloor.
  split; [reflexivity|]. split; [exact Hfloor|].
  unfold dlon_of. generalize dependent (lon_divisor cos lat). intros d Hfloor.
  pose proof Hfloor as HD. rewrite leb_spec in HD.
  assert (Hshape : Prim2SF d = S754_infinity false
                   \/ exists m e, Prim2SF d = S754_finite false m e).
  { rewrite Prim2SF_least_divisor in HD.
    destruct (SFleb_finite_inv _ _ _ HD) as [H|(m & e & H & _)];
      [left|right; exists m, e]; exact H. }
  split; [|split; [|split; [reflexivity|]]].
  - unfold is_zero. rewrite eqb_spec.
    destruct Hshape as [->|(m & e & ->)]; reflexivity.
  - unfold is_nan. rewrite eqb_spec.
    rewrite SFeqb_refl_finite; [reflexivity|].
    destruct Hshape as [->|(m & e & ->)]; discriminate.
  - apply is_finite_spec. rewrite div_spec.
    apply div_by_floor_finite.
    + apply Prim2SF_valid.
    + apply Prim2SF_valid.
    + apply is_finite_spec. exact Hside.
    + exact HD.
Qed.

End Binary64.

(** ** Code that assigns the flag nowhere, or only where guarded *)

Lemma nowrite_bind {A B : Type} (p : prog A) (f : A -> prog B) :
  nowrite p -> (forall a, nowrite (f a)) -> nowrite (bind p f).
Proof.
  induction p; simpl; intros Hp Hf; auto.
Qed.

Lemma nowrite_settle {A : Type} (p : prog A) :
  forall v evs v' p',
    nowrite p ->
    settle v p = (evs, (v', p')) ->
    existsb writes_flag evs = false /\ flying v' = flying v /\ nowrite p'.
Proof.
  induction p; simpl; intros v evs v' p' Hp Hs;
    try (injection Hs as <- <- <-; simpl; auto; fail);
    try contradiction.
  - destruct (settle v p) as [evs0 [v0 p0]] eqn:Hs0.
    injection Hs as <- <- <-. simpl. eauto.
  - destruct (settle v p) as [evs0 [v0 p0]] eqn:Hs0.
    injection Hs as <- <- <-. simpl. eauto.
  - eauto.
  - eauto.
  - destruct (IHp _ _ _ _ Hp Hs) as (? & ? & ?). auto.
Qed.

Lemma nowrite_resume {A : Type} (p : prog A) a ev p' :
  nowrite p -> resume p a = Some (ev, p') ->
  writes_flag ev = false /\ nowrite p'.
Proof.
  destruct p; destruct a; simpl; intros Hp Hr; try discriminate;
    injection Hr as <- <-; auto.
Qed.

Lemma nowrite_step {A : Type} (p : prog A) v a evs v' p' :
  nowrite p -> step v p a = Some (evs, (v', p')) ->
  existsb writes_flag evs = false /\ flying v' = flying v /\ nowrite p'.
Proof.
  unfold step. intros Hp Hs.
  destruct (resume p a) as [[ev p1]|] eqn:Hr; [|discriminate].
  destruct (nowrite_resume _ _ _ _ Hp Hr) as [Hev Hp1].
  destruct (settle v p1) as [evs1 [v1 p2]] eqn:Hs1.
  injection Hs as <- <- <-.
  destruct (nowrite_settle _ _ _ _ _ Hp1 Hs1) as (? & ? & ?).
  simpl. rewrite Hev. auto.
Qed.

Lemma nowrite_feed {A : Type} answers :
  forall (p : prog A) v evs v' p',
    nowrite p -> feed v p answers = Some (evs, (v', p')) ->
    existsb writes_flag evs = false /\ flying v' = flying v /\ nowrite p'.
Proof.
  induction answers as [|a rest IH]; simpl; intros p v evs v' p' Hp Hf.
  - injection Hf as <- <- <-. auto.
  - destruct (step v p a) as [[evs1 [v1 p1]]|] eqn:Hs; [|discriminate].
    destruct (feed v1 p1 rest) as [[evs2 [v2 p2]]|] eqn:Hf2; [|discriminate].
    injection Hf as <- <- <-.
    destruct (nowrite_step _ _ _ _ _ _ Hp Hs) as (E1 & F1 & N1).
    destruct (IH _ _ _ _ _ N1 Hf2) as (E2 & F2 & N2).
    rewrite existsb_app, E1, E2. repeat split; auto. congruence.
Qed.

Lemma nowrite_exec {A : Type} (p : prog A) v answers evs v' p' :
  nowrite p -> exec v p answers = Some (evs, (v', p')) ->
  existsb writes_flag evs = false /\ flying v' = flying v /\ nowrite p'.
Proof.
  unfold exec. intros Hp He.
  destruct (settle v p) as [evs0 [v0 p0]] eqn:Hs.
  destruct (feed v0 p0 answers) as [[evs1 [v1 p1]]|] eqn:Hf; [|discriminate].
  injection He as <- <- <-.
  destruct (nowrite_settle _ _ _ _ _ Hp Hs) as (E0 & F0 & N0).
  destruct (nowrite_feed _ _ _ _ _ _ N0 Hf) as (E1 & F1 & N1).
  rewrite existsb_app, E0, E1. repeat split; auto. congruence.
Qed.

Lemma guarded_head {A : Type} (c : call) (r : result unit) (q : prog A) :
  guarded q ->
  match q with
  | SetFlying b k' => confirms c r b /\ guarded k'
  | _ => guarded q
  end.
Proof.
  destruct q; simpl; auto; contradiction.
Qed.

Lemma nowrite_guarded {A : Type} (p : prog A) : nowrite p -> guarded p.
Proof.
  induction p; simpl; intros Hp; auto; try contradiction.
  intros r. apply guarded_head. auto.
Qed.

Lemma guarded_bind_aux {A B : Type} (f : A -> prog B) :
  (forall a, guarded (f a)) ->
  forall p : prog A,
    (guarded p -> guarded (bind p f))
    /\ (forall b k', p = SetFlying b k' -> guarded k' -> guarded (bind k' f)).
Proof.
  intros Hf.
  induction p; simpl; (split; [intros Hp|intros b0 k0 Hk Hg0; try discriminate]);
    auto; try contradiction;
    try (intros x; apply H; auto; fail);
    try (apply IHp; auto; fail).
  - intros r. specialize (Hp r). destruct (H r) as [H1 H2].
    destruct (k r) eqn:Hk; try (apply guarded_head, H1; exact Hp).
    destruct Hp as [Hc Hg]. simpl. split; [exact Hc|]. eapply H2; eauto.
  - injection Hk as <- <-. apply IHp; auto.
Qed.

Lemma guarded_bind {A B : Type} (p : prog A) (f : A -> prog B) :
  guarded p -> (forall a, guarded (f a)) -> guarded (bind p f).
Proof.
  intros Hp Hf. apply (guarded_bind_aux f Hf p). exact Hp.
Qed.

Lemma guarded_settle {A : Type} (p : prog A) :
  forall v evs v' p',
    guarded p ->
    settle v p = (evs, (v', p')) ->
    existsb writes_flag evs = false /\ flying v' = flying v /\ guarded p'.
Proof.
  induction p; simpl; intros v evs v' p' Hp Hs;
    try (injection Hs as <- <- <-; simpl; auto; fail);
    try contradiction.
  - destruct (settle v p) as [evs0 [v0 p0]] eqn:Hs0.
    injection Hs as <- <- <-. simpl. eauto.
  - destruct (settle v p) as [evs0 [v0 p0]] eqn:Hs0.
    injection Hs as <- <- <-. simpl. eauto.
  - eauto.
  - eauto.
  - destruct (IHp _ _ _ _ Hp Hs) as (? & ? & ?). auto.
Qed.

Lemma guarded_step {A : Type} (p : prog A) v a evs v' p' :
  guarded p ->
  step v p a = Some (evs, (v', p')) ->
  guarded p'
  /\ ((existsb writes_flag evs = false /\ flying v' = flying v)
      \/ exists c b rest,
           a = Returned (Ok tt)
           /\ evs = EvAwait c (Ok tt) :: EvSetFlying b :: rest
           /\ confirms c (Ok tt) b
           /\ existsb writes_flag rest = false
           /\ flying v' = b).
Proof.
  unfold step. intros Hp Hs.
  destruct p; destruct a; simpl in Hs; try discriminate;
    try (destruct (settle v _) as [evs1 [v1 p1]] eqn:Hs1;
         injection Hs as <- <- <-;
         match type of Hs1 with
         | settle _ ?q = _ =>
             assert (Hq : guarded q) by (simpl in Hp; auto)
         end;
         destruct (guarded_settle _ _ _ _ _ Hq Hs1) as (? & ? & ?);
         split; [assumption | left; simpl; auto]; fail).
  simpl in Hp. specialize (Hp r).
  destruct (k r) eqn:Hk;
    try (rewrite <- Hk in Hs;
         destruct (settle v (k r)) as [evs1 [v1 p1]] eqn:Hs1;
         injection Hs as <- <- <-;
         rewrite Hk in Hs1;
         destruct (guarded_settle _ _ _ _ _ Hp Hs1) as (? & ? & ?);
         split; [assumption | left; simpl; auto]; fail).
  destruct Hp as [Hc Hg]. simpl in Hs.
  destruct (settle _ p) as [evs1 [v1 p1]] eqn:Hs1.
  injection Hs as <- <- <-.
  destruct (guarded_settle _ _ _ _ _ Hg Hs1) as (E1 & F1 & G1).
  split; [assumption|]. right.
  pose proof Hc as Hc'. destruct Hc' as [-> _].
  exists c, flying0, evs1. repeat split; auto. apply Hc.
Qed.


(** ** Walking the paths of a coroutine *)

Ltac walk H :=
  repeat match goal with
  | r : result unit |- _ => destruct r as [[]|?]; cbn in H
  | _ =>
    match type of H with
    | context [feed _ _ ?l] =>
        is_var l; destruct l as [|[] l]; unfold step in H; cbn in H;
        try discriminate H
    end
  end.

Ltac swalk H :=
  repeat match goal with
  | r : result unit |- _ => destruct r as [[]|?]; cbn in H
  | _ =>
    match type of H with
    | context [Server.session_feed _ _ _ _ _ _ _ ?l] =>
        is_var l; destruct l as [|[] l];
        unfold Server.session_step in H; cbn in H;
        try discriminate H
    end
  end.

Ltac done_walk H := injection H as <- <- <-; cbn.

Section Properties.

Variable cos : float -> float.
Variable decode_strip_lower : string -> result string.
Variable unbound_conn_msg : string.
Variable none_attribute_msg : string -> string.

#[local] Abbreviation loop_turn :=
  (Server.loop_turn cos decode_strip_lower unbound_conn_msg none_attribute_msg).
#[local] Abbreviation next_turn :=
  (Server.next_turn cos decode_strip_lower unbound_conn_msg none_attribute_msg).
#[local] Abbreviation dispatch :=
  (Server.dispatch cos unbound_conn_msg none_attribute_msg).
#[local] Abbreviation unwind :=
  (Server.unwind cos decode_strip_lower unbound_conn_msg none_attribute_msg).
#[local] Abbreviation advance :=
  (Server.advance cos decode_strip_lower unbound_conn_msg none_attribute_msg).
#[local] Abbreviation session_step :=
  (Server.session_step cos decode_strip_lower unbound_conn_msg
     none_attribute_msg).
#[local] Abbreviation session_feed :=
  (Server.session_feed cos decode_strip_lower unbound_conn_msg
     none_attribute_msg).
#[local] Abbreviation sys_step :=
  (Server.sys_step cos decode_strip_lower unbound_conn_msg none_attribute_msg).
#[local] Abbreviation sys_run :=
  (Server.sys_run cos decode_strip_lower unbound_conn_msg none_attribute_msg).

(** *** The blocks of [handle_client] and [main] *)

Ltac tree :=
  repeat (cbn; intros;
          try match goal with
              | r : result _ |- _ => destruct r
              | u : unit |- _ => destruct u
              | b : bool |- _ => destruct b
              | o : option _ |- _ => destruct o
              | e : exn |- _ => destruct e
              | |- _ /\ _ => split
              end);
  unfold confirms; auto.

Ltac nw lem :=
  repeat first
    [ exact I
    | progress (cbn; intros)
    | match goal with
      | r : result _ |- _ => destruct r
      | u : unit |- _ => destruct u
      | b : bool |- _ => destruct b
      | o : option _ |- _ => destruct o
      | e : exn |- _ => destruct e
      end
    | apply lem
    | apply nowrite_bind ].

Lemma wait_for_nowrite {T A : Type} pred found (exhausted : A) (s : stream T) :
  nowrite (wait_for pred found exhausted s).
Proof.
  unfold wait_for. destruct (find pred (items s)); [exact I|].
  destruct (ending s); exact I.
Qed.

Lemma reply_err_nowrite e : nowrite (reply_err e).
Proof. tree. Qed.

Lemma takeoff_branch_guarded : guarded takeoff_branch.
Proof. tree. Qed.

Lemma land_branch_guarded : guarded land_branch.
Proof. tree. Qed.

Lemma mission_branch_nowrite :
  nowrite (mission_branch cos none_attribute_msg).
Proof.
  unfold mission_branch, try_except.
  apply nowrite_bind; [|intros [a|e]; [exact I|apply reply_err_nowrite]].
  cbn. intros [|]; cbn.
  - intros s. unfold bindE.
    apply nowrite_bind; [apply wait_for_nowrite|].
    intros [home|e]; [|exact I]. tree.
  - tree.
Qed.

Lemma status_branch_nowrite : nowrite (status_branch unbound_conn_msg).
Proof. tree. Qed.

Lemma dispatch_guarded cmd :
  guarded (dispatch cmd).
Proof.
  unfold Server.dispatch.
  repeat match goal with
         | |- context [if ?c then _ else _] => destruct c
         end;
    unfold bindE;
    try (apply guarded_bind; [|intros [[]|?]; exact I]).
  - apply takeoff_branch_guarded.
  - apply nowrite_guarded, mission_branch_nowrite.
  - apply land_branch_guarded.
  - apply nowrite_guarded, status_branch_nowrite.
  - tree.
  - tree.
Qed.

Lemma loop_turn_guarded :
  guarded loop_turn.
Proof.
  unfold Server.loop_turn. cbn. intros [line|e]; [|exact I].
  destruct (line =? ""); [exact I|].
  cbn. destruct (decode_strip_lower line) as [cmd|e]; [|exact I].
  cbn. apply dispatch_guarded.
Qed.

Lemma greeting_nowrite addr : nowrite (greeting addr).
Proof. tree. Qed.

Lemma finally_block_nowrite addr : nowrite (finally_block addr).
Proof. tree. Qed.

Lemma main_nowrite_after before evs v p :
  settle (mkVars before None) main = (evs, (v, p)) ->
  flying v = false /\ nowrite p.
Proof.
  cbn. intros H. injection H as <- <- <-. split; [reflexivity|].
  nw @wait_for_nowrite.
Qed.


(** *** Sessions and the process keep the flag guarded *)

Lemma settle_session_guarded s v evs v' s' :
  session_guarded s ->
  settle_session v s = (evs, (v', s')) ->
  existsb writes_flag evs = false /\ flying v' = flying v
  /\ session_guarded s'.
Proof.
  destruct s as [p|p|pending p|r]; simpl; intros Hg Hs;
    try (destruct (settle v p) as [evs0 [v0 p0]] eqn:Hs0;
         injection Hs as <- <- <-;
         exact (guarded_settle _ _ _ _ _ Hg Hs0)).
  injection Hs as <- <- <-. auto.
Qed.

Lemma unwind_guarded addr s s' :
  unwind addr s = Some s' -> session_guarded s'.
Proof.
  destruct s as [p|p|[e0|] p|r]; simpl; intros Hu; try discriminate;
    destruct p as [a| | | | | | | | | | | | | | | |]; try discriminate.
  - destruct a as [[]|e]; injection Hu as <-; unfold session_guarded, next_turn;
      auto using loop_turn_guarded.
  - destruct a as [[|]|e]; injection Hu as <-; unfold session_guarded, next_turn;
      auto using loop_turn_guarded, nowrite_guarded, finally_block_nowrite.
  - destruct a as [[]|e]; injection Hu as <-; exact I.
  - destruct a as [[]|e]; injection Hu as <-; exact I.
Qed.

Lemma advance_guarded addr s v evs v' s' :
  session_guarded s ->
  advance addr v s = (evs, (v', s')) ->
  existsb writes_flag evs = false /\ flying v' = flying v
  /\ session_guarded s'.
Proof.
  unfold Server.advance. intros Hg Ha.
  destruct (settle_session v s) as [evs1 [v1 s1]] eqn:Hs1.
  destruct (settle_session_guarded _ _ _ _ _ Hg Hs1) as (E1 & F1 & G1).
  destruct (unwind addr s1) as [s2|] eqn:Hu.
  - destruct (settle_session v1 s2) as [evs2 [v2 s3]] eqn:Hs2.
    injection Ha as <- <- <-.
    destruct (settle_session_guarded _ _ _ _ _ (unwind_guarded _ _ _ Hu) Hs2)
      as (E2 & F2 & G2).
    rewrite existsb_app, E1, E2. repeat split; auto. congruence.
  - injection Ha as <- <- <-. auto.
Qed.

Lemma session_step_guarded addr s v a evs v' s' :
  session_guarded s ->
  session_step addr v s a = Some (evs, (v', s')) ->
  session_guarded s'
  /\ ((existsb writes_flag evs = false /\ flying v' = flying v)
      \/ exists c b rest,
           a = Returned (Ok tt)
           /\ evs = EvAwait c (Ok tt) :: EvSetFlying b :: rest
           /\ confirms c (Ok tt) b
           /\ existsb writes_flag rest = false
           /\ flying v' = b).
Proof.
  intros Hg Hs.
  assert (Hkey : forall (A : Type) (p : prog (result A))
                   (wrap : prog (result A) -> session),
             (forall q, session_guarded (wrap q) <-> guarded q) ->
             (forall v q, settle_session v (wrap q) =
                          let '(evs, (v', q')) := settle v q in
                          (evs, (v', wrap q'))) ->
             guarded p ->
             match resume p a with
             | Some (ev, p') =>
                 let '(evs, r) := advance addr v (wrap p') in
                 Some (ev :: evs, r)
             | None => None
             end = Some (evs, (v', s')) ->
             session_guarded s'
             /\ ((existsb writes_flag evs = false /\ flying v' = flying v)
                 \/ exists c b rest,
                      a = Returned (Ok tt)
                      /\ evs = EvAwait c (Ok tt) :: EvSetFlying b :: rest
                      /\ confirms c (Ok tt) b
                      /\ existsb writes_flag rest = false
                      /\ flying v' = b)).
  { clear. intros A p wrap Hwrap Hsettle Hp Hs.
    destruct (resume p a) as [[ev p1]|] eqn:Hr; [|discriminate].
    unfold Server.advance in Hs. rewrite Hsettle in Hs.
    destruct (settle v p1) as [evs1 [v1 p2]] eqn:Hs1.
    assert (Hstep : step v p a = Some (ev :: evs1, (v1, p2)))
      by (unfold step; rewrite Hr, Hs1; reflexivity).
    destruct (guarded_step _ _ _ _ _ _ Hp Hstep) as [G2 Hcase].
    destruct (unwind addr (wrap p2)) as [s2|] eqn:Hu.
    - destruct (settle_session v1 s2) as [evs2 [v2 s3]] eqn:Hs2.
      injection Hs as <- <- <-.
      destruct (settle_session_guarded _ _ _ _ _ (unwind_guarded _ _ _ Hu) Hs2)
        as (E2 & F2 & G3).
      split; [assumption|].
      destruct Hcase as [[E1 F1]|(c & b & rest & -> & Hev & Hc & E1 & F1)].
      + left. change (ev :: evs1 ++ evs2)%list with ((ev :: evs1) ++ evs2)%list.
        rewrite existsb_app, E1, E2. split; auto. congruence.
      + right. injection Hev as -> ->.
        exists c, b, (rest ++ evs2)%list.
        split; [reflexivity|]. split; [reflexivity|]. split; [exact Hc|].
        split; [|congruence].
        rewrite existsb_app, E1, E2. reflexivity.
    - injection Hs as <- <- <-.
      split; [apply Hwrap; assumption|].
      destruct Hcase as [[E1 F1]|(c & b & rest & -> & Hev & Hc & E1 & F1)].
      + left. auto.
      + right. exists c, b, rest. repeat split; auto; apply Hc. }
  unfold Server.session_step in Hs.
  destruct s as [p|p|pending p|r]; simpl in Hs, Hg; try discriminate.
  - apply (Hkey _ p InGreeting); auto; [reflexivity|].
    destruct (resume p a) as [[? ?]|]; auto.
  - apply (Hkey _ p InLoop); auto; [reflexivity|].
    destruct (resume p a) as [[? ?]|]; auto.
  - apply (Hkey _ p (InFinally pending)); auto; [reflexivity|].
    destruct (resume p a) as [[? ?]|]; auto.
Qed.

Lemma Forall_replace_nth {T : Type} (P : T -> Prop) n x (l : list T) :
  Forall P l -> P x -> Forall P (replace_nth n x l).
Proof.
  intros Hl Hx. revert n.
  induction Hl as [|y l Hy Hl IH]; intros [|n]; simpl; auto.
Qed.

Lemma sys_step_guarded s i evs s' :
  system_guarded s ->
  sys_step s i = Some (evs, s') ->
  system_guarded s'
  /\ ((existsb writes_flag evs = false /\ state_flying s' = state_flying s)
      \/ exists n c b rest,
           i = ToClient n (Returned (Ok tt))
           /\ evs = EvAwait c (Ok tt) :: EvSetFlying b :: rest
           /\ confirms c (Ok tt) b
           /\ existsb writes_flag rest = false
           /\ state_flying s' = b).
Proof.
  intros [Hmain Hclients] Hs.
  destruct i as [a|peer|n a]; cbv beta iota delta [Server.sys_step] in Hs.
  - destruct (step _ (main_task s) a) as [[evs1 [v1 p1]]|] eqn:Hstep;
      [|discriminate].
    injection Hs as <- <-.
    destruct (nowrite_step _ _ _ _ _ _ Hmain Hstep) as (E & F & N).
    split; [split; assumption|]. left. auto.
  - destruct (is_serving (main_task s)); [|discriminate].
    destruct (advance peer _ (handle_client peer)) as [evs1 [v1 c1]] eqn:Ha.
    injection Hs as <- <-.
    assert (Hg : session_guarded (handle_client peer))
      by (apply nowrite_guarded, greeting_nowrite).
    destruct (advance_guarded _ _ _ _ _ _ Hg Ha) as (E & F & G).
    split; [|left; auto].
    split; [assumption|]. simpl.
    apply Forall_app. split; [assumption|]. constructor; [exact G|constructor].
  - destruct (nth_error (clients s) n) as [c|] eqn:Hn; [|discriminate].
    destruct (session_step (addr c) _ (at_session c) a)
      as [[evs1 [v1 c1]]|] eqn:Hstep; [|discriminate].
    injection Hs as <- <-.
    assert (Hg : session_guarded (at_session c)).
    { rewrite Forall_forall in Hclients. apply Hclients.
      eapply nth_error_In; eauto. }
    destruct (session_step_guarded _ _ _ _ _ _ _ Hg Hstep) as [G Hcase].
    split.
    + split; [assumption|]. simpl. apply Forall_replace_nth; auto.
    + destruct Hcase as [[E F]|(c0 & b & rest & -> & -> & Hc & E & F)].
      * left. auto.
      * right. exists n, c0, b, rest. auto.
Qed.

Lemma boot_guarded before : system_guarded (snd (boot before)).
Proof.
  unfold boot.
  destruct (settle (mkVars before None) main) as [evs [v p]] eqn:Hs.
  destruct (main_nowrite_after _ _ _ _ Hs) as [_ N].
  split; [exact N|constructor].
Qed.

Lemma sys_run_guarded inputs :
  forall s evs s',
    system_guarded s -> sys_run s inputs = Some (evs, s') ->
    system_guarded s'.
Proof.
  induction inputs as [|i rest IH]; simpl; intros s evs s' Hg Hr.
  - injection Hr as <- <-. assumption.
  - destruct (sys_step s i) as [[evs1 s1]|] eqn:Hs; [|discriminate].
    destruct (sys_run s1 rest) as [[evs2 s2]|] eqn:Hr2; [|discriminate].
    injection Hr as <- <-.
    eapply IH; [|eassumption].
    eapply sys_step_guarded; eassumption.
Qed.


(** *** One turn of the loop, command by command *)

Lemma turn_exec v line cmd answers :
  line <> "" ->
  decode_strip_lower line = Ok cmd ->
  exec v loop_turn (Line (Ok line) :: answers) =
  match exec v (dispatch cmd) answers with
  | Some (evs, r) =>
      Some (EvReadline (Ok line) :: EvPrint ("CMD: " ++ cmd) :: evs, r)
  | None => None
  end.
Proof.
  intros Hne Hdec.
  apply String.eqb_neq in Hne.
  unfold exec, Server.loop_turn. simpl. unfold step. simpl.
  rewrite Hne, Hdec. simpl.
  destruct (settle v (dispatch cmd)) as [evs [v' p']].
  destruct (feed v' p' answers) as [[evs' r]|]; reflexivity.
Qed.

Lemma session_turn addr v line cmd :
  line <> "" ->
  decode_strip_lower line = Ok cmd ->
  session_step addr v (InLoop next_turn) (Line (Ok line)) =
  let '(evs, r) := advance addr v (InLoop (dispatch cmd)) in
  Some (EvReadline (Ok line) :: EvPrint ("CMD: " ++ cmd) :: evs, r).
Proof.
  intros Hne Hdec.
  apply String.eqb_neq in Hne.
  unfold Server.session_step, Server.next_turn, Server.loop_turn, Server.advance.
  simpl. rewrite Hne, Hdec. simpl.
  destruct (settle v (dispatch cmd)) as [evs [v' p']].
  destruct (unwind addr (InLoop p')) as [s2|].
  - destruct (settle_session v' s2) as [evs2 r2]. reflexivity.
  - reflexivity.
Qed.

(** C1: a turn of the loop that reads [mission] while the flag is [False]
    makes no call on the Vehicle Link, whatever happens next, and leaves the
    variables alone; the first thing it does is to send [ERR not flying], and
    when that send succeeds the turn is over with this one reply. *)
Theorem mission_while_grounded cn line answers evs v' p' :
  line <> "" ->
  decode_strip_lower line = Ok "mission" ->
  exec (mkVars false cn) loop_turn (Line (Ok line) :: answers)
    = Some (evs, (v', p')) ->
  existsb on_link evs = false
  /\ v' = mkVars false cn
  /\ match answers with
     | [] =>
         replies evs = []
         /\ awaiting p' = Some (write_drain ("ERR not flying" ++ nl))
     | a :: _ =>
         exists r,
           a = Returned r
           /\ hd_error (replies evs) = Some ("ERR not flying" ++ nl)
           /\ (r = Ok tt ->
               replies evs = ["ERR not flying" ++ nl]
               /\ p' = Ret (Ok Continue))
     end.
Proof.
  intros Hne Hdec Hexec.
  rewrite (turn_exec _ _ _ _ Hne Hdec) in Hexec.
  unfold exec in Hexec. cbn in Hexec.
  walk Hexec; done_walk Hexec; repeat split; eauto.
  all: eexists; repeat split; discriminate.
Qed.

(** C4, as the code has it: after a [status] line, when the connection
    stream yields a state, the reply is [OK connected=<c> flying=<f>] where
    the two tokens are Python's renderings [True] and [False] of the link's
    connection flag and of the shared flag (so [OK connected=True
    flying=False] after a successful land), and it is the only reply of the
    turn. *)
Theorem status_reply v line sc :
  line <> "" ->
  decode_strip_lower line = Ok "status" ->
  exists p,
    exec v loop_turn [Line (Ok line); FirstState (Ok (Some sc))]
    = Some ([EvReadline (Ok line); EvPrint "CMD: status";
             EvFirstConnectionState (Ok (Some sc))],
            (mkVars (flying v) (Some (Telemetry.is_connected sc)), p))
    /\ awaiting p
       = Some (write_drain
                 ("OK connected=" ++ str_bool (Telemetry.is_connected sc)
                  ++ " flying=" ++ str_bool (flying v) ++ nl))
    /\ exec v loop_turn
         [Line (Ok line); FirstState (Ok (Some sc)); Returned (Ok tt)]
       = Some ([EvReadline (Ok line); EvPrint "CMD: status";
                EvFirstConnectionState (Ok (Some sc));
                EvAwait (write_drain
                           ("OK connected="
                            ++ str_bool (Telemetry.is_connected sc)
                            ++ " flying=" ++ str_bool (flying v) ++ nl))
                  (Ok tt)],
               (mkVars (flying v) (Some (Telemetry.is_connected sc)),
                Ret (Ok Continue))).
Proof.
  intros Hne Hdec.
  rewrite !(turn_exec _ _ _ _ Hne Hdec).
  eexists. split; [reflexivity|]. split; reflexivity.
Qed.


(** C6: in a turn that reads [takeoff], [take off] or [land], when a call on
    the Vehicle Link raises [e], the variables are what they were, the flag
    was not assigned, and the reply is [ERR] followed by the text of [e]:
    either it is the send the turn is suspended on, or it is the first
    reply sent. *)
Theorem link_failure_leaves_state v line cmd answers evs v' p' c e :
  line <> "" ->
  decode_strip_lower line = Ok cmd ->
  takeoff_or_land cmd = true ->
  exec v loop_turn (Line (Ok line) :: answers) = Some (evs, (v', p')) ->
  In (EvAwait c (Raise e)) evs ->
  is_link_call c = true ->
  v' = v
  /\ existsb writes_flag evs = false
  /\ (awaiting p' = Some (write_drain ("ERR " ++ str e ++ nl))
      \/ hd_error (replies evs) = Some ("ERR " ++ str e ++ nl)).
Proof.
  intros Hne Hdec Hcmd Hexec Hin Hlink.
  rewrite (turn_exec _ _ _ _ Hne Hdec) in Hexec.
  unfold takeoff_or_land in Hcmd.
  assert (Hcases : cmd = "takeoff" \/ cmd = "take off" \/ cmd = "land").
  { apply orb_true_iff in Hcmd. destruct Hcmd as [Hcmd|Hcmd].
    - apply orb_true_iff in Hcmd. destruct Hcmd as [Hcmd|Hcmd];
        apply String.eqb_eq in Hcmd; auto.
    - apply String.eqb_eq in Hcmd; auto. }
  destruct v as [fl cn].
  destruct Hcases as [ -> | [ -> | -> ] ];
    unfold exec in Hexec; cbn in Hexec;
    walk Hexec; done_walk Hexec; cbn in Hin;
    repeat match goal with
           | H : _ \/ _ |- _ => destruct H
           | H : False |- _ => contradiction
           | H : EvReadline _ = EvAwait _ _ |- _ => discriminate H
           | H : EvPrint _ = EvAwait _ _ |- _ => discriminate H
           | H : EvSleep _ = EvAwait _ _ |- _ => discriminate H
           | H : EvSetFlying _ = EvAwait _ _ |- _ => discriminate H
           | H : EvAwait _ (Ok tt) = EvAwait _ (Raise _) |- _ => discriminate H
           | H : EvAwait _ (Raise _) = EvAwait _ (Raise _) |- _ =>
               injection H as <- <-
           end;
    try discriminate Hlink;
    repeat split; auto.
Qed.


(** C10: a turn that reads [mission] never assigns the flag, on any path,
    whether its steps succeed or fail. *)
Theorem mission_never_writes_flag v line answers evs v' p' :
  line <> "" ->
  decode_strip_lower line = Ok "mission" ->
  exec v loop_turn (Line (Ok line) :: answers) = Some (evs, (v', p')) ->
  existsb writes_flag evs = false /\ flying v' = flying v.
Proof.
  intros Hne Hdec Hexec.
  rewrite (turn_exec _ _ _ _ Hne Hdec) in Hexec.
  destruct (exec v (dispatch "mission") answers)
    as [[evs1 [v1 p1]]|] eqn:He; [|discriminate].
  injection Hexec as <- <- <-.
  assert (Hn : nowrite (dispatch "mission")).
  { cbn -[mission_branch]. unfold bindE.
    apply nowrite_bind; [apply mission_branch_nowrite|].
    intros [[]|e]; exact I. }
  destruct (nowrite_exec _ _ _ _ _ _ Hn He) as (E & F & _).
  simpl. auto.
Qed.

(** C9: in a [mission] turn started while flying, once the home position
    is read, a [clear_mission] that raises leaves the coroutine exactly where
    a [clear_mission] that returns (and the pause after it) leaves it: about
    to upload the plan built from the home position; from there the upload,
    the pause, the start and the reply [OK mission started] follow. *)
Theorem clear_failure_is_swallowed v line s home e :
  line <> "" ->
  decode_strip_lower line = Ok "mission" ->
  flying v = true ->
  find home_set (items s) = Some home ->
  let plan :=
    build_square_mission cos
      (Telemetry.latitude_deg home) (Telemetry.longitude_deg home)
      default_alt default_side_m default_speed_m_s in
  let before_clear :=
    [EvReadline (Ok line); EvPrint "CMD: mission";
     EvPrint "Fetching home position..."; EvWaitHome 10.0 s] in
  exists p,
    exec v loop_turn [Line (Ok line); Homes s; Returned (Raise e)]
    = Some ((before_clear
             ++ [EvAwait mission_clear_mission (Raise e)])%list, (v, p))
    /\ exec v loop_turn [Line (Ok line); Homes s; Returned (Ok tt); Woke]
       = Some ((before_clear
                ++ [EvAwait mission_clear_mission (Ok tt); EvSleep 0.3])%list,
               (v, p))
    /\ awaiting p = Some (mission_upload_mission plan)
    /\ feed v p [Returned (Ok tt); Woke; Returned (Ok tt); Returned (Ok tt)]
       = Some ([EvAwait (mission_upload_mission plan) (Ok tt);
                EvSleep 0.5;
                EvAwait mission_start_mission (Ok tt);
                EvAwait (write_drain ("OK mission started" ++ nl)) (Ok tt)],
               (v, Ret (Ok Continue))).
Proof.
  intros Hne Hdec Hfly Hhome plan before_clear.
  rewrite !(turn_exec _ _ _ _ Hne Hdec).
  destruct v as [fl cn]. simpl in Hfly. subst fl.
  unfold exec, step, wait_for. cbn. unfold step, wait_for. cbn.
  rewrite Hhome. cbn.
  eexists. split; [reflexivity|]. split; [reflexivity|].
  split; reflexivity.
Qed.

(** C7: a session that reads [stop] sends [OK stop], closes the connection
    right after, and sends no reply afterwards, however long it is run; when
    the send succeeds, [OK stop] is the only reply from that line on. *)
Theorem stop_ends_session addr v line a answers evs v' s' :
  line <> "" ->
  decode_strip_lower line = Ok "stop" ->
  session_feed addr v (InLoop next_turn) (Line (Ok line) :: a :: answers)
    = Some (evs, (v', s')) ->
  exists r rest,
    evs = ([EvReadline (Ok line); EvPrint "CMD: stop";
            EvAwait (write_drain ("OK stop" ++ nl)) r; EvClose] ++ rest)%list
    /\ replies rest = []
    /\ (r = Ok tt -> replies evs = ["OK stop" ++ nl]).
Proof.
  intros Hne Hdec Hfeed.
  simpl in Hfeed. rewrite (session_turn _ _ _ _ Hne Hdec) in Hfeed.
  cbn in Hfeed.
  destruct a; unfold Server.session_step in Hfeed; cbn in Hfeed;
    try discriminate Hfeed.
  swalk Hfeed; injection Hfeed as <- <- <-;
    eexists; eexists; (split; [reflexivity|]); split; try reflexivity;
    intros; try discriminate; reflexivity.
Qed.


(** C5: the flag is [False] when the process starts, and from any state
    the process reaches, a step either leaves the flag alone (no assignment
    at all), or is the resumption of a session whose
    [drone.action.takeoff()] returned, which assigns [True] at once, or
    whose [drone.action.land()] returned, which assigns [False] at once. *)
Theorem flying_written_only_on_confirmation before inputs evs s i evs' s' :
  sys_run (snd (boot before)) inputs = Some (evs, s) ->
  sys_step s i = Some (evs', s') ->
  state_flying (snd (boot before)) = false
  /\ ((existsb writes_flag evs' = false /\ state_flying s' = state_flying s)
      \/ exists n rest,
           i = ToClient n (Returned (Ok tt))
           /\ existsb writes_flag rest = false
           /\ ((evs' = EvAwait action_takeoff (Ok tt) :: EvSetFlying true :: rest
                /\ state_flying s' = true)
               \/ (evs' = EvAwait action_land (Ok tt) :: EvSetFlying false :: rest
                   /\ state_flying s' = false))).
Proof.
  intros Hrun Hstep. split; [reflexivity|].
  pose proof (sys_run_guarded _ _ _ _ (boot_guarded before) Hrun) as Hg.
  destruct (sys_step_guarded _ _ _ _ Hg Hstep) as [_ Hcase].
  destruct Hcase as [?|(n & c & b & rest & -> & -> & [_ Hc] & E & F)].
  - left. assumption.
  - right. exists n, rest. repeat split; auto.
    destruct Hc as [[-> ->]|[-> ->]]; [left|right]; auto.
Qed.
(** C8: when [wait_connected] times out at boot, [main] prints the failure
    and returns: the server is never started, there is no session, and
    nothing can happen any more.  When the link is connected and
    [wait_health_ok] times out, [main] prints a warning and goes on to start
    the server on [HOST], [PORT]; once it listens, connections are
    accepted. *)
Theorem boot_timeouts before sc sh :
  find Telemetry.is_connected (items sc) = None ->
  ending sc = Deadline ->
  find health_ok (items sh) = None ->
  ending sh = Deadline ->
  (exists down,
     sys_run (snd (boot before))
       [ToMain (Returned (Ok tt)); ToMain (ConnectionStates sc)]
     = Some ([EvAwait (connect PX4_SYSTEM_ADDRESS) (Ok tt);
              EvPrint "Waiting for MAVSDK connection_state() ...";
              EvWaitConnectionState 20.0 sc;
              EvPrint "❌ Timeout waiting for drone connection.";
              EvPrint "   Likely MAVLink packets are not reaching WSL on udp://:14540";
              EvPrint "   Try tcpdump: sudo tcpdump -n udp port 14540"],
             down)
     /\ main_task down = Ret (Ok tt)
     /\ clients down = []
     /\ forall i, sys_step down i = None)
  /\ (forall sc',
        find Telemetry.is_connected (items sc') <> None ->
        exists up,
          sys_run (snd (boot before))
            [ToMain (Returned (Ok tt)); ToMain (ConnectionStates sc');
             ToMain (Healths sh)]
          = Some ([EvAwait (connect PX4_SYSTEM_ADDRESS) (Ok tt);
                   EvPrint "Waiting for MAVSDK connection_state() ...";
                   EvWaitConnectionState 20.0 sc';
                   EvPrint "✅ Drone is connected!";
                   EvPrint "Waiting for telemetry health (global/home position)...";
                   EvWaitHealth 45.0 sh;
                   EvPrint "⚠️ Health not OK yet (global/home). Mission may fail.";
                   EvPrint "   In SITL this should become OK; in real drone ensure GPS/home are set."],
                  up)
          /\ starting_server (main_task up) = Some (HOST, PORT)
          /\ forall addrs peer,
               exists evs serving,
                 sys_run up [ToMain (Listening (Ok addrs)); Accept peer]
                 = Some (evs, serving)
                 /\ is_serving (main_task serving) = true
                 /\ map addr (clients serving) = [peer]).
Proof.
  intros Hconn Hdead Hhealth Hhdead. split.
  - unfold boot. cbn. unfold step, wait_for. cbn. rewrite Hconn, Hdead. cbn.
    eexists. split; [reflexivity|]. cbn.
    split; [reflexivity|]. split; [reflexivity|].
    intros [a|peer|n a]; cbn; try reflexivity;
      try (destruct a; reflexivity); destruct n; reflexivity.
  - intros sc' Hconn'.
    destruct (find Telemetry.is_connected (items sc')) as [x|] eqn:Hf;
      [|congruence].
    unfold boot. cbn. unfold step, wait_for. cbn. rewrite Hf. cbn.
    unfold step, wait_for. cbn. rewrite Hhealth, Hhdead. cbn.
    eexists. split; [reflexivity|]. cbn. split; [reflexivity|].
    intros addrs peer. eexists. eexists. split; [reflexivity|].
    cbn. split; reflexivity.
Qed.


End Properties.

(** ** The theorems at work on the sample parameters *)

Lemma lon_divisor_clamped_witness :
  ((1.11e5 * 0.2 <=? lon_divisor Sample.cos_at_pole 90) = true
   /\ lon_divisor Sample.cos_at_pole 90 = 22200
   /\ is_finite (dlon_of Sample.cos_at_pole 90 10) = true)%float.
Proof.
  destruct (lon_divisor_clamped Sample.cos_at_pole 90%float 10%float eq_refl)
    as (_ & Hfloor & _ & _ & _ & Hfinite).
  split; [exact Hfloor|]. split; [reflexivity|exact Hfinite].
Defined.

Lemma mission_while_grounded_witness :
  exists evs v' p',
    exec (mkVars false None) Sample.loop_turn
      [Line (Ok "mission"); Returned (Ok tt)] = Some (evs, (v', p'))
    /\ existsb on_link evs = false
    /\ replies evs = ["ERR not flying" ++ nl].
Proof.
  eexists. eexists. eexists.
  split; [vm_compute; reflexivity|].
  destruct (mission_while_grounded Sample.cos Sample.decode_strip_lower
              Sample.unbound_conn_msg Sample.none_attribute_msg
              None "mission" [Returned (Ok tt)] _ _ _
              ltac:(discriminate) eq_refl eq_refl)
    as (Hlink & _ & r & Hr & _ & Hreply).
  split; [exact Hlink|].
  injection Hr as <-. exact (proj1 (Hreply eq_refl)).
Defined.

(** The reply to [status] is not the lower-case line of the specification:
    with a connected link and the flag [False], the turn is about to send
    [OK connected=True flying=False]. *)
Lemma status_reply_not_lowercase :
  exists evs v p,
    exec (mkVars false None) Sample.loop_turn
      [Line (Ok "status");
       FirstState (Ok (Some (Telemetry.mkConnectionState true)))]
    = Some (evs, (v, p))
    /\ awaiting p
       = Some (write_drain ("OK connected=True flying=False" ++ nl))
    /\ awaiting p
       <> Some (write_drain (status_reply_as_specified true false)).
Proof.
  eexists. eexists. eexists.
  split; [vm_compute; reflexivity|].
  split; [reflexivity|].
  cbn. intros H. discriminate H.
Qed.

Lemma status_reply_witness :
  exists p,
    exec (mkVars false None) Sample.loop_turn
      [Line (Ok "status");
       FirstState (Ok (Some (Telemetry.mkConnectionState true)))]
    = Some ([EvReadline (Ok "status"); EvPrint "CMD: status";
             EvFirstConnectionState
               (Ok (Some (Telemetry.mkConnectionState true)))],
            (mkVars false (Some true), p))
    /\ awaiting p
       = Some (write_drain ("OK connected=True flying=False" ++ nl)).
Proof.
  destruct (status_reply Sample.cos Sample.decode_strip_lower
              Sample.unbound_conn_msg Sample.none_attribute_msg
              (mkVars false None) "status" (Telemetry.mkConnectionState true)
              ltac:(discriminate) eq_refl)
    as (p & Hexec & Hreply & _).
  exists p. split; [exact Hexec|exact Hreply].
Defined.

Lemma link_failure_leaves_state_witness :
  exists evs p',
    exec (mkVars false None) Sample.loop_turn
      [Line (Ok "takeoff"); Returned (Ok tt); Woke;
       Returned (Raise (Error "COMMAND_DENIED"))]
    = Some (evs, (mkVars false None, p'))
    /\ existsb writes_flag evs = false
    /\ awaiting p' = Some (write_drain ("ERR COMMAND_DENIED" ++ nl)).
Proof.
  eexists. eexists.
  split; [vm_compute; reflexivity|].
  destruct (link_failure_leaves_state Sample.cos Sample.decode_strip_lower
              Sample.unbound_conn_msg Sample.none_attribute_msg
              (mkVars false None) "takeoff" "takeoff"
              [Returned (Ok tt); Woke;
               Returned (Raise (Error "COMMAND_DENIED"))]
              _ _ _ action_takeoff (Error "COMMAND_DENIED")
              ltac:(discriminate) eq_refl eq_refl eq_refl
              ltac:(cbn; tauto) eq_refl)
    as (_ & Hflag & Hreply).
  split; [exact Hflag|].
  destruct Hreply as [H|H]; [exact H|discriminate H].
Defined.

Lemma mission_never_writes_flag_witness :
  exists evs v' p',
    exec (mkVars true None) Sample.loop_turn
      [Line (Ok "mission"); Homes Sample.home_fix; Returned (Ok tt); Woke;
       Returned (Ok tt); Woke; Returned (Ok tt); Returned (Ok tt)]
    = Some (evs, (v', p'))
    /\ existsb writes_flag evs = false /\ flying v' = true.
Proof.
  eexists. eexists. eexists.
  split; [vm_compute; reflexivity|].
  refine (mission_never_writes_flag Sample.cos Sample.decode_strip_lower
            Sample.unbound_conn_msg Sample.none_attribute_msg
            (mkVars true None) "mission"
            [Homes Sample.home_fix; Returned (Ok tt); Woke;
             Returned (Ok tt); Woke; Returned (Ok tt); Returned (Ok tt)]
            _ _ _ _ _ _);
    [discriminate|reflexivity|vm_compute; reflexivity].
Defined.

Lemma clear_failure_is_swallowed_witness :
  exists p plan,
    exec (mkVars true None) Sample.loop_turn
      [Line (Ok "mission"); Homes Sample.home_fix;
       Returned (Raise (Error "no mission to clear"))]
    = Some ([EvReadline (Ok "mission"); EvPrint "CMD: mission";
             EvPrint "Fetching home position...";
             EvWaitHome 10.0 Sample.home_fix;
             EvAwait mission_clear_mission
               (Raise (Error "no mission to clear"))],
            (mkVars true None, p))
    /\ awaiting p = Some (mission_upload_mission plan)
    /\ List.length (mission_items plan) = 4%nat.
Proof.
  destruct (clear_failure_is_swallowed Sample.cos Sample.decode_strip_lower
              Sample.unbound_conn_msg Sample.none_attribute_msg
              (mkVars true None) "mission" Sample.home_fix
              (Telemetry.mkPosition 24.7 46.6)
              (Error "no mission to clear")
              ltac:(discriminate) eq_refl eq_refl eq_refl)
    as (p & Hraise & _ & Hupload & _).
  exists p. eexists.
  split; [exact Hraise|]. split; [exact Hupload|reflexivity].
Defined.

Lemma stop_ends_session_witness :
  exists evs v' s' r rest,
    Sample.session_feed "peer" (mkVars true (Some true))
      (InLoop Sample.next_turn)
      [Line (Ok "stop"); Returned (Ok tt); Returned (Ok tt)]
    = Some (evs, (v', s'))
    /\ evs = ([EvReadline (Ok "stop"); EvPrint "CMD: stop";
               EvAwait (write_drain ("OK stop" ++ nl)) r; EvClose]
              ++ rest)%list
    /\ replies rest = [].
Proof.
  eexists. eexists. eexists.
  destruct (stop_ends_session Sample.cos Sample.decode_strip_lower
              Sample.unbound_conn_msg Sample.none_attribute_msg
              "peer" (mkVars true (Some true)) "stop"
              (Returned (Ok tt)) [Returned (Ok tt)] _ _ _
              ltac:(discriminate) eq_refl
              ltac:(vm_compute; reflexivity))
    as (r & rest & Hevs & Hrest & _).
  exists r, rest.
  split; [vm_compute; reflexivity|]. split; [exact Hevs|exact Hrest].
Defined.

Lemma flying_written_only_on_confirmation_witness :
  exists evs s evs' s',
    Sample.sys_run (snd (boot true))
      (Sample.boot_and_accept
       ++ [ToClient 0 (Line (Ok "takeoff"));
           ToClient 0 (Returned (Ok tt));
           ToClient 0 Woke])%list = Some (evs, s)
    /\ Sample.sys_step s (ToClient 0 (Returned (Ok tt))) = Some (evs', s')
    /\ state_flying s = false
    /\ state_flying s' = true
    /\ exists rest,
         evs' = EvAwait action_takeoff (Ok tt) :: EvSetFlying true :: rest.
Proof.
  eexists. eexists. eexists. eexists.
  split; [vm_compute; reflexivity|].
  split; [vm_compute; reflexivity|].
  split; [reflexivity|]. split; [reflexivity|].
  lazymatch goal with
  | |- exists rest, ?evs' = _ =>
      destruct (flying_written_only_on_confirmation
                  Sample.cos Sample.decode_strip_lower
                  Sample.unbound_conn_msg Sample.none_attribute_msg
                  true
                  (Sample.boot_and_accept
                   ++ [ToClient 0 (Line (Ok "takeoff"));
                       ToClient 0 (Returned (Ok tt));
                       ToClient 0 Woke])%list
                  _ _ (ToClient 0 (Returned (Ok tt))) evs' _
                  ltac:(vm_compute; reflexivity)
                  ltac:(vm_compute; reflexivity))
        as [_ [[_ Hsame]|(n & rest & _ & _ & [[Hevs _]|[_ Hland]])]]
  end.
  - discriminate Hsame.
  - exists rest. exact Hevs.
  - discriminate Hland.
Defined.

Lemma boot_timeouts_witness :
  (exists down,
     Sample.sys_run (snd (boot true))
       [ToMain (Returned (Ok tt));
        ToMain (ConnectionStates Sample.never_connected)]
     = Some ([EvAwait (connect PX4_SYSTEM_ADDRESS) (Ok tt);
              EvPrint "Waiting for MAVSDK connection_state() ...";
              EvWaitConnectionState 20.0 Sample.never_connected;
              EvPrint "❌ Timeout waiting for drone connection.";
              EvPrint "   Likely MAVLink packets are not reaching WSL on udp://:14540";
              EvPrint "   Try tcpdump: sudo tcpdump -n udp port 14540"],
             down)
     /\ forall i, Sample.sys_step down i = None)
  /\ (exists evs up,
        Sample.sys_run (snd (boot true))
          [ToMain (Returned (Ok tt));
           ToMain (ConnectionStates Sample.connected_now);
           ToMain (Healths Sample.never_healthy)]
        = Some (evs, up)
        /\ starting_server (main_task up) = Some (HOST, PORT)).
Proof.
  destruct (boot_timeouts Sample.cos Sample.decode_strip_lower
              Sample.unbound_conn_msg Sample.none_attribute_msg
              true Sample.never_connected Sample.never_healthy
              eq_refl eq_refl eq_refl eq_refl)
    as [(down & Hrun & _ & _ & Hdead) Hhealth].
  split.
  - exists down. split; [exact Hrun|exact Hdead].
  - destruct (Hhealth Sample.connected_now ltac:(discriminate))
      as (up & Hup & Hstart & _).
    eexists. exists up. split; [exact Hup|exact Hstart].
Defined.
